(** * ilackthemac: the OUI registry loader and the lookup service

    A shallow embedding of [main.go]: the loader [makeMACHashMap] with its
    record pattern and the validation in [NewOUI], and the three read
    operations [ListOUIs], [GetOUI] and [GetVendorFromMAC].

    Go strings are byte strings: they are modelled by [string], whose
    characters ([ascii]) are 8-bit bytes.  The registry [allOUIs] is a slice
    of pointers: it is modelled by a list of addresses into a heap of
    [OUIData] cells.  A call that can end the process has an [outcome]. *)

From Stdlib Require Import ZArith NArith Ascii Lia Sorted.
From stdpp Require Import base option list strings gmap.

Local Open Scope Z_scope.

(** ** Bytes *)

Module Char.

Definition code (c : ascii) : Z := Z.of_N (N_of_ascii c).

Definition between (lo hi : Z) (c : ascii) : bool :=
  (lo <=? code c) && (code c <=? hi).

Definition is_digit (c : ascii) : bool := between 48 57 c.
Definition is_lower (c : ascii) : bool := between 97 122 c.
Definition is_upper (c : ascii) : bool := between 65 90 c.
Definition is_letter (c : ascii) : bool := is_lower c || is_upper c.

(** [0-9a-fA-F] *)
Definition is_hex (c : ascii) : bool :=
  is_digit c || between 97 102 c || between 65 70 c.

(** [utf8.RuneSelf] is 0x80: bytes below it are single-byte runes. *)
Definition is_ascii (c : ascii) : bool := code c <? 128.

Definition of_code (z : Z) : ascii := ascii_of_N (Z.to_N z).

(** [c -= 'a' - 'A'] on a lower-case letter, other bytes unchanged. *)
Definition to_upper (c : ascii) : ascii :=
  if is_lower c then of_code (code c - 32) else c.

End Char.

(** ** Outcomes of a call

    A Go call returns, or the process ends inside it: [log.Fatal] prints
    and calls [os.Exit(1)], [panic] unwinds (nothing in this program
    recovers). *)

Inductive outcome (A : Type) : Type :=
| Returned (a : A)
| Exited (status : Z)
| Panicked.

Arguments Returned {A} a.
Arguments Exited {A} status.
Arguments Panicked {A}.

#[global] Instance outcome_ret : MRet outcome := fun A a => Returned a.

#[global] Instance outcome_bind : MBind outcome := fun A B f o =>
  match o with
  | Returned a => f a
  | Exited n => Exited n
  | Panicked => Panicked
  end.

(** ** The [strconv] calls of [NewOUI] *)

Module strconv.

Inductive NumError : Type := ErrSyntax | ErrRange | ErrBase | ErrBitSize.

Definition uint64_mod : Z := 2 ^ 64.
Definition maxUint64 : Z := 2 ^ 64 - 1.

(** [lower(c) = c | ('x' - 'X')] *)
Definition lower (c : Z) : Z := Z.lor c 32.

(** The value of one digit byte, [None] where Go's switch reaches its
    default case.  With a base other than 0 an underscore is no digit. *)
Definition digit (c : Z) : option Z :=
  if (48 <=? c) && (c <=? 57) then Some (c - 48)
  else if (97 <=? lower c) && (lower c <=? 122) then Some (lower c - 97 + 10)
  else None.

(** The digit loop of [ParseUint], on unsigned 64-bit arithmetic. *)
Fixpoint digits (base maxVal cutoff : Z) (s : string) (n : Z)
  : Z * option NumError :=
  match s with
  | EmptyString => (n, None)
  | String c s' =>
      match digit (Char.code c) with
      | None => (0, Some ErrSyntax)
      | Some d =>
          if d >=? base then (0, Some ErrSyntax)
          else if n >=? cutoff then (maxVal, Some ErrRange)
          else
            let n' := (n * base) mod uint64_mod in
            let n1 := (n' + d) mod uint64_mod in
            if (n1 <? n') || (n1 >? maxVal) then (maxVal, Some ErrRange)
            else digits base maxVal cutoff s' n1
      end
  end.

(** [ParseUint(s, base, bitSize)] for an explicit base (2..36); base 0,
    which reads a prefix of the string, is not used by the program. *)
Definition ParseUint (s : string) (base bitSize : Z) : Z * option NumError :=
  match s with
  | EmptyString => (0, Some ErrSyntax)
  | _ =>
      if (base <? 2) || (base >? 36) then (0, Some ErrBase)
      else
        let bitSize := if bitSize =? 0 then 64 else bitSize in
        if (bitSize <? 0) || (bitSize >? 64) then (0, Some ErrBitSize)
        else
          let cutoff := maxUint64 / base + 1 in
          let maxVal := 2 ^ bitSize - 1 in
          digits base maxVal cutoff s 0
  end.

(** [ParseInt(s, base, bitSize)]: an optional sign, then [ParseUint],
    then the range check of a signed [bitSize]-bit integer. *)
Definition ParseInt (s : string) (base bitSize : Z) : Z * option NumError :=
  match s with
  | EmptyString => (0, Some ErrSyntax)
  | String c0 s1 =>
      let neg := Ascii.eqb c0 "-" in
      let body := if Ascii.eqb c0 "+" || neg then s1 else s in
      let '(un, err) := ParseUint body base bitSize in
      match err with
      | Some ErrRange | None =>
          let bitSize := if bitSize =? 0 then 64 else bitSize in
          let cutoff := 2 ^ (bitSize - 1) in
          if negb neg && (un >=? cutoff) then (cutoff - 1, Some ErrRange)
          else if neg && (un >? cutoff) then (- cutoff, Some ErrRange)
          else (if neg then - un else un, None)
      | Some e => (0, Some e)
      end
  end.

End strconv.

(** ** The [strings] calls of [NewOUI] and [GetOUI] *)

Module Str.

Fixpoint all (p : ascii -> bool) (s : string) : bool :=
  match s with
  | EmptyString => true
  | String c s' => p c && all p s'
  end.

Fixpoint any (p : ascii -> bool) (s : string) : bool :=
  match s with
  | EmptyString => false
  | String c s' => p c || any p s'
  end.

Fixpoint map (f : ascii -> ascii) (s : string) : string :=
  match s with
  | EmptyString => EmptyString
  | String c s' => String (f c) (map f s')
  end.

Fixpoint filter (p : ascii -> bool) (s : string) : string :=
  match s with
  | EmptyString => EmptyString
  | String c s' => if p c then String c (filter p s') else filter p s'
  end.

(** [s[:n]] for [n <= len(s)] *)
Fixpoint take (n : nat) (s : string) : string :=
  match n, s with
  | S n', String c s' => String c (take n' s')
  | _, _ => EmptyString
  end.

Definition len (s : string) : Z := Z.of_nat (String.length s).

(** The length of the longest prefix of bytes of a class. *)
Fixpoint span (p : ascii -> bool) (s : string) : nat :=
  match s with
  | String c s' => if p c then S (span p s') else O
  | EmptyString => O
  end.

End Str.

(** The paths of [strings.ToUpper] and [strings.TrimSpace] for strings with
    a byte of 0x80 or more go through the tables of package [unicode],
    which are no part of the program: they are taken as given. *)
Record Unicode : Type := {
  (** [strings.Map(unicode.ToUpper, s)] *)
  MapToUpper : string -> string;
  (** [strings.TrimFunc(s, unicode.IsSpace)] *)
  TrimFuncIsSpace : string -> string;
  (** [strings.TrimRightFunc(s, unicode.IsSpace)] *)
  TrimRightFuncIsSpace : string -> string
}.

Module strings.
Section WithUnicode.

Context (U : Unicode).

(** [ToUpper]: a string of ASCII bytes is returned as it is when it has
    no lower-case letter, and with each lower-case letter moved to upper
    case otherwise. *)
Definition ToUpper (s : string) : string :=
  if Str.all Char.is_ascii s then
    if negb (Str.any Char.is_lower s) then s
    else Str.map Char.to_upper s
  else MapToUpper U s.

(** [asciiSpace]: tab, line feed, vertical tab, form feed, carriage
    return, space. *)
Definition asciiSpace (c : ascii) : bool :=
  Char.between 9 13 c || (Char.code c =? 32).

(** One of the two loops of [TrimSpace], reading from the front: the
    rest of the string from the first byte that is no ASCII space, and
    whether that byte is 0x80 or more. *)
Fixpoint skipSpace (s : string) : string * bool :=
  match s with
  | EmptyString => (s, false)
  | String c s' =>
      if negb (Char.is_ascii c) then (s, true)
      else if asciiSpace c then skipSpace s'
      else (s, false)
  end.

Definition TrimSpace (s : string) : string :=
  match skipSpace s with
  | (rest, true) => TrimFuncIsSpace U rest
  | (rest, false) =>
      match skipSpace (String.rev rest) with
      | (r, true) => TrimRightFuncIsSpace U (String.rev r)
      | (r, false) => String.rev r
      end
  end.

End WithUnicode.
End strings.

(** ** The [regexp] calls of [makeMACHashMap] and [normalizeMac]

    The two patterns of the program are built from single bytes and byte
    classes, sequences, counted repetition, the greedy [*] and [+] of a
    class, capture groups and the line anchors of the [(?m)] flag.  Go's
    engine returns the match a backtracking search finds first, from the
    leftmost position where there is one: [exec] lists the ways a pattern
    matches at a position in that order of preference.

    The engine reads runes.  On bytes the two patterns behave the same:
    a byte of 0x80 or more is part of a rune outside ASCII (or decodes to
    U+FFFD, one byte wide), which [.] and a negated ASCII class accept and
    every other item of the patterns rejects. *)

Module regexp.

Inductive Regexp : Type :=
| Epsilon
| Char (p : ascii -> bool)
| Seq (r1 r2 : Regexp)
| Times (n : nat) (r : Regexp)
| Star (p : ascii -> bool)
| Group (i : nat) (name : string) (r : Regexp)
| BeginLine
| EndLine.

(** [x+] is [x x*] *)
Definition Plus (p : ascii -> bool) : Regexp := Seq (Char p) (Star p).

(** a literal string *)
Fixpoint Lit (s : string) : Regexp :=
  match s with
  | EmptyString => Epsilon
  | String c s' => Seq (Char (Ascii.eqb c)) (Lit s')
  end.

(** A thread of the search: the byte before the position ([None] at the
    start of the text), the text from the position on, and the text of
    each group matched so far. *)
Record thread : Type := Thread {
  prev : option ascii;
  rest : string;
  caps : list string
}.

Definition newline : ascii := ascii_of_nat 10.

(** Greedy [p*]: the longest run first, the empty run last. *)
Fixpoint star (p : ascii -> bool) (before : option ascii) (s : string)
  : list (string * (option ascii * string)) :=
  match s with
  | String c s' =>
      if p c then
        ((fun '(w, e) => (String c w, e)) <$> star p (Some c) s')
          ++ [(EmptyString, (before, s))]
      else [(EmptyString, (before, s))]
  | EmptyString => [(EmptyString, (before, s))]
  end.

(** The matches of [r] at thread [t] in order of preference: the text
    matched and the thread after it. *)
Fixpoint exec (r : Regexp) (t : thread) : list (string * thread) :=
  match r with
  | Epsilon => [(EmptyString, t)]
  | Char p =>
      match rest t with
      | String c s' =>
          if p c then [(String c EmptyString, Thread (Some c) s' (caps t))]
          else []
      | EmptyString => []
      end
  | Seq r1 r2 =>
      '(w1, t1) ← exec r1 t; '(w2, t2) ← exec r2 t1; [(w1 +:+ w2, t2)]
  | Times n r1 =>
      (fix times (n : nat) (t : thread) : list (string * thread) :=
         match n with
         | O => [(EmptyString, t)]
         | S n' =>
             '(w1, t1) ← exec r1 t; '(w2, t2) ← times n' t1;
             [(w1 +:+ w2, t2)]
         end) n t
  | Star p =>
      (fun '(w, (b, s)) => (w, Thread b s (caps t))) <$> star p (prev t) (rest t)
  | Group i _ r1 =>
      '(w, t1) ← exec r1 t; [(w, Thread (prev t1) (rest t1) (<[i:=w]> (caps t1)))]
  | BeginLine =>
      match prev t with
      | None => [(EmptyString, t)]
      | Some c => if Ascii.eqb c newline then [(EmptyString, t)] else []
      end
  | EndLine =>
      match rest t with
      | EmptyString => [(EmptyString, t)]
      | String c _ => if Ascii.eqb c newline then [(EmptyString, t)] else []
      end
  end.

(** [NumSubexp]: the number of groups. *)
Fixpoint NumSubexp (r : Regexp) : nat :=
  match r with
  | Seq r1 r2 => Nat.max (NumSubexp r1) (NumSubexp r2)
  | Times _ r1 => NumSubexp r1
  | Group i _ r1 => Nat.max i (NumSubexp r1)
  | _ => 0%nat
  end.

Fixpoint subexpIndex (r : Regexp) (name : string) : Z :=
  match r with
  | Seq r1 r2 =>
      let i := subexpIndex r1 name in
      if i =? -1 then subexpIndex r2 name else i
  | Times _ r1 => subexpIndex r1 name
  | Group i n r1 =>
      if String.eqb n name then Z.of_nat i else subexpIndex r1 name
  | _ => -1
  end.

(** [SubexpIndex(name)]: the index of the leftmost group with that name,
    -1 when there is none or the name is empty. *)
Definition SubexpIndex (r : Regexp) (name : string) : Z :=
  if String.eqb name EmptyString then -1 else subexpIndex r name.

(** Whether the pattern has a group of index [i]. *)
Fixpoint sets (i : nat) (r : Regexp) : bool :=
  match r with
  | Seq r1 r2 => sets i r1 || sets i r2
  | Times _ r1 => sets i r1
  | Group j _ r1 => (i =? j)%nat || sets i r1
  | _ => false
  end.

(** The preferred match that starts at the position itself: the slice of
    submatches, the whole match at index 0 and the empty string for a
    group that took no part. *)
Definition matchAt (r : Regexp) (before : option ascii) (s : string)
  : option (list string) :=
  match exec r (Thread before s (replicate (S (NumSubexp r)) EmptyString)) with
  | (w, t) :: _ => Some (<[0%nat:=w]> (caps t))
  | [] => None
  end.

Definition whole (m : list string) : string := default EmptyString (m !! 0%nat).

(** All successive matches, not overlapping, each with the offset where it
    starts.  [skip] counts the bytes left of the match found last, [pos]
    is the offset of [s] in the text, [lastEnd] the end of the match found
    last; an empty match right after a match is left out. *)
Fixpoint allMatches (r : Regexp) (skip pos : nat) (lastEnd : option nat)
    (before : option ascii) (s : string) : list (nat * list string) :=
  match skip with
  | S k =>
      match s with
      | String c s' => allMatches r k (S pos) lastEnd (Some c) s'
      | EmptyString => []
      end
  | O =>
      let next k e :=
        match s with
        | String c s' => allMatches r k (S pos) e (Some c) s'
        | EmptyString => []
        end in
      match matchAt r before s with
      | None => next O lastEnd
      | Some m =>
          match String.length (whole m) with
          | O =>
              if decide (lastEnd = Some pos) then next O (Some pos)
              else (pos, m) :: next O (Some pos)
          | S k => (pos, m) :: next k (Some (pos + S k)%nat)
          end
      end
  end.

Definition FindAllStringSubmatchIndex (r : Regexp) (s : string)
  : list (nat * list string) :=
  allMatches r 0 0 None None s.

(** [FindAllStringSubmatch(s, -1)] *)
Definition FindAllStringSubmatch (r : Regexp) (s : string) : list (list string) :=
  snd <$> FindAllStringSubmatchIndex r s.

(** [ReplaceAllString(src, repl)] for a replacement without [$]: the text
    between the matches is kept and each match becomes [repl], except an
    empty match right after a match. *)
Fixpoint replaceAll (r : Regexp) (repl : string) (skip pos : nat)
    (lastEnd : nat) (before : option ascii) (s : string) : string :=
  match skip with
  | S k =>
      match s with
      | String c s' => replaceAll r repl k (S pos) lastEnd (Some c) s'
      | EmptyString => EmptyString
      end
  | O =>
      match matchAt r before s with
      | None =>
          match s with
          | String c s' => String c (replaceAll r repl 0 (S pos) lastEnd (Some c) s')
          | EmptyString => EmptyString
          end
      | Some m =>
          match String.length (whole m) with
          | O =>
              (if (lastEnd <? pos)%nat || (pos =? 0)%nat then repl else EmptyString)
              +:+ match s with
                  | String c s' => String c (replaceAll r repl 0 (S pos) pos (Some c) s')
                  | EmptyString => EmptyString
                  end
          | S k =>
              repl +:+
              match s with
              | String c s' => replaceAll r repl k (S pos) (pos + S k) (Some c) s'
              | EmptyString => EmptyString
              end
          end
      end
  end.

Definition ReplaceAllString (r : Regexp) (src repl : string) : string :=
  replaceAll r repl 0 0 0 None src.

End regexp.

(** ** The program *)

(** [type OUIData struct] *)
Record OUIData : Type := {
  OUI : string;
  VendorName : string;
  VendorAlternateName : string
}.

#[global] Instance OUIData_eq_dec : EqDecision OUIData.
Proof. solve_decision. Defined.

(** A Go [error] value made by [errors.New]. *)
Inductive error : Type := errorString (msg : string).

(** A [*OUIData] that is not nil: the address of a cell of the heap. *)
Abbreviation ptr := nat (only parsing).

(** The memory of the process the core reads and writes: the [OUIData]
    cells allocated so far, in order of allocation, and the
    package-level slice [allOUIs]. *)
Record Memory : Type := {
  heap : list OUIData;
  allOUIs : list ptr
}.

(** The memory at the start of [main]: [allOUIs] is nil. *)
Definition start : Memory := {| heap := []; allOUIs := [] |}.

(** [*p] *)
Definition deref (st : Memory) (p : ptr) : outcome OUIData :=
  match heap st !! p with
  | Some o => Returned o
  | None => Panicked
  end.

(** [m[i]] on a slice: an index out of range panics. *)
Definition index (m : list string) (i : Z) : outcome string :=
  if i <? 0 then Panicked
  else match m !! Z.to_nat i with
       | Some s => Returned s
       | None => Panicked
       end.

(** [s[:n]] on a string: a bound out of range panics. *)
Definition sliceTo (s : string) (n : nat) : outcome string :=
  if (n <=? String.length s)%nat then Returned (Str.take n s) else Panicked.

Module Pattern.

Import regexp.

Infix "⋅" := Seq (at level 41, right associativity).

(** [[0-9a-fA-F]] *)
Definition hex : ascii -> bool := Char.is_hex.

(** [\s], which is [[\t\n\f\r ]] *)
Definition space (c : ascii) : bool :=
  let n := Char.code c in
  (n =? 9) || (n =? 10) || (n =? 12) || (n =? 13) || (n =? 32).

(** [.] without the [s] flag: anything but a line feed *)
Definition dot (c : ascii) : bool := negb (Ascii.eqb c newline).

(** The pattern of [makeMACHashMap], as the source writes it, and its
    syntax tree. *)
Definition ouiExp_source : string :=
  "(?m)^([0-9a-fA-F]{2}(-[0-9a-fA-F]{2}){2})\s+\(hex\)\s+(?P<vendorName>.*)\n(?P<OUI>[0-9a-fA-F]{6})\s+\(base 16\)\s+(?P<vendorAlternateName>.*)$".

Definition ouiExp : Regexp :=
  BeginLine
  ⋅ Group 1 "" (Times 2 (Char hex)
                ⋅ Times 2 (Group 2 "" (Char (Ascii.eqb "-") ⋅ Times 2 (Char hex))))
  ⋅ Plus space ⋅ Lit "(hex)" ⋅ Plus space
  ⋅ Group 3 "vendorName" (Star dot)
  ⋅ Char (Ascii.eqb newline)
  ⋅ Group 4 "OUI" (Times 6 (Char hex))
  ⋅ Plus space ⋅ Lit "(base 16)" ⋅ Plus space
  ⋅ Group 5 "vendorAlternateName" (Star dot)
  ⋅ EndLine.

(** The bytes the class of [normalizeMac] leaves out: [a-zA-Z0-9] and the
    space. *)
Definition kept (c : ascii) : bool :=
  Char.is_lower c || Char.is_upper c || Char.is_digit c || (Char.code c =? 32).

(** The pattern of [normalizeMac] and its syntax tree. *)
Definition macExp_source : string := "[^a-zA-Z0-9 ]+".

Definition macExp : Regexp := Plus (fun c => negb (kept c)).

End Pattern.

Section Program.

Context (U : Unicode).

(** [func NewOUI]: [log.Fatal] ends the process when the prefix does not
    parse; the [return] that follows it is never reached. *)
Definition NewOUI (oui vendorName vendorAlternateName : string)
  : outcome (OUIData * option error) :=
  let '(_, err) := strconv.ParseInt oui 16 48 in
  match err with
  | Some _ => Exited 1
  | None =>
      Returned ({| OUI := oui;
                   VendorName := strings.TrimSpace U vendorName;
                   VendorAlternateName := strings.TrimSpace U vendorAlternateName |},
                None)
  end.

(** [func ListOUIs] *)
Definition ListOUIs (st : Memory) : list ptr := allOUIs st.

(** The [range] loop of [GetOUI] over the slice. *)
Fixpoint GetOUI_range (st : Memory) (ps : list ptr) (oui : string)
  : outcome (option ptr) :=
  match ps with
  | [] => Returned None
  | o :: ps' =>
      d ← deref st o;
      if String.eqb (OUI d) (strings.ToUpper U oui) then Returned (Some o)
      else GetOUI_range st ps' oui
  end.

(** [func GetOUI]: [None] is the nil pointer. *)
Definition GetOUI (st : Memory) (oui : string) : outcome (option ptr) :=
  GetOUI_range st (allOUIs st) oui.

(** The [range] loop of [makeMACHashMap] over the matches: each entry that
    passes [NewOUI] gets a cell of its own, whose address goes into the
    map under the prefix and at the end of [allOUIs]. *)
Fixpoint loadMatches (matches : list (list string))
    (results : gmap string ptr) (st : Memory)
  : outcome (gmap string ptr * Memory) :=
  match matches with
  | [] => Returned (results, st)
  | m :: matches' =>
      oui ← index m (regexp.SubexpIndex Pattern.ouiExp "OUI");
      vendor ← index m (regexp.SubexpIndex Pattern.ouiExp "vendorName");
      vendorOtherName ← index m (regexp.SubexpIndex Pattern.ouiExp "vendorAlternateName");
      '(ouiEntry, err) ← NewOUI oui vendor vendorOtherName;
      match err with
      | Some _ => loadMatches matches' results st
      | None =>
          let p := length (heap st) in
          loadMatches matches' (<[OUI ouiEntry := p]> results)
            {| heap := heap st ++ [ouiEntry]; allOUIs := allOUIs st ++ [p] |}
      end
  end.

(** [func makeMACHashMap]: [fs] is the file system [os.ReadFile] reads,
    [None] for a file it cannot read. *)
Definition makeMACHashMap (fs : string -> option string) (fileName : string)
    (st : Memory) : outcome (gmap string ptr * Memory) :=
  match fs fileName with
  | None => Panicked
  | Some text =>
      loadMatches (regexp.FindAllStringSubmatch Pattern.ouiExp text) ∅ st
  end.

(** [func normalizeMac] *)
Definition normalizeMac (mac : string) : string * option error :=
  let mac := regexp.ReplaceAllString Pattern.macExp mac "" in
  if negb (String.length mac =? 12)%nat
  then ("", Some (errorString "Incorrect format of MAC address"))
  else (mac, None).

(** [func GetVendorFromMAC] *)
Definition GetVendorFromMAC (st : Memory) (mac : string) : outcome string :=
  let '(macToFind, err) := normalizeMac mac in
  match err with
  | Some _ => Returned ""
  | None =>
      prefix ← sliceTo macToFind 6;
      macOUI ← GetOUI st prefix;
      match macOUI with
      | Some p => d ← deref st p; Returned (VendorName d)
      | None => Returned ""
      end
  end.

(** [main] up to the start of the server: the registry is loaded once,
    from [oui.txt], into the memory the handlers read. *)
Definition loaded (fs : string -> option string) (st : Memory) : Prop :=
  exists results, makeMACHashMap fs "oui.txt" start = Returned (results, st).

End Program.

(** ** Sample sources *)

(** A file system with one file. *)
Definition oneFile (name text : string) : string -> option string :=
  fun n => if String.eqb n name then Some text else None.

(** Tables of package [unicode] that leave every string alone: the sample
    sources are ASCII and do not reach them. *)
Definition asciiOnly : Unicode :=
  {| MapToUpper := id; TrimFuncIsSpace := id; TrimRightFuncIsSpace := id |}.

Definition lf : string := String regexp.newline EmptyString.

(** The two lines of a record. *)
Definition twoLines (hexLine baseLine : string) : string :=
  hexLine +:+ lf +:+ baseLine +:+ lf.

Definition privateRecord : string :=
  twoLines "AC-DE-48   (hex)  Private" "ACDE48     (base 16)  Private".

Definition upperRecord (vendor : string) : string :=
  twoLines ("AA-BB-CC   (hex)  " +:+ vendor) ("AABBCC     (base 16)  " +:+ vendor).

Definition lowerRecord (vendor : string) : string :=
  twoLines ("aa-bb-cc   (hex)  " +:+ vendor) ("aabbcc     (base 16)  " +:+ vendor).

(** A record whose prefix is no hexadecimal number. *)
Definition malformedRecord : string :=
  twoLines "0A-0B-0C   (hex)  Bad" "GGGGGG     (base 16)  Bad".

(** A record with nothing but spaces after [(hex)]. *)
Definition blankVendorRecord : string :=
  twoLines "AA-BB-CC   (hex)  " "AABBCC     (base 16)  Blank".

(** The memory after the load of a sample source. *)
Definition memoryOf (text : string) : Memory :=
  match makeMACHashMap asciiOnly (oneFile "oui.txt" text) "oui.txt" start with
  | Returned (_, st) => st
  | _ => start
  end.

(** ** Vocabulary of the specification *)

(** The submatch of index [i], the empty string when there is none. *)
Definition field (m : list string) (i : nat) : string :=
  default EmptyString (m !! i).

(** What a match of the record pattern looks like: six submatches, the
    one of the group [OUI] made of six hexadecimal digits. *)
Definition isRecord (m : list string) : Prop :=
  length m = 6%nat
  /\ String.length (field m 4) = 6%nat
  /\ Str.all Char.is_hex (field m 4) = true.

(** Whether the prefix of a record parses as a base-16 integer. *)
Definition prefixParses (m : list string) : bool :=
  bool_decide ((strconv.ParseInt (field m 4) 16 48).2 = None).

(** The entry [NewOUI] makes of a record. *)
Definition entryOf (U : Unicode) (m : list string) : OUIData :=
  {| OUI := field m 4;
     VendorName := strings.TrimSpace U (field m 3);
     VendorAlternateName := strings.TrimSpace U (field m 5) |}.

(** The records of a source text, in the order [FindAllStringSubmatch]
    lists them. *)
Definition records (text : string) : list (list string) :=
  regexp.FindAllStringSubmatch Pattern.ouiExp text.

(** The map [makeMACHashMap] builds from entries stored from the address
    [base] on: a later entry takes the place of an earlier one with the
    same prefix. *)
Fixpoint mapOf (es : list OUIData) (base : nat) (results : gmap string ptr)
  : gmap string ptr :=
  match es with
  | [] => results
  | e :: es' => mapOf es' (S base) (<[OUI e := base]> results)
  end.

(** The loader as the specification words it, to compare [makeMACHashMap]
    with: a record whose prefix parses is stored, a record whose prefix
    does not parse is dropped, and the load goes on with the next record
    in both cases; the process is never ended. *)
Fixpoint skipAndContinue (U : Unicode) (ms : list (list string))
    (results : gmap string ptr) (st : Memory) : gmap string ptr * Memory :=
  match ms with
  | [] => (results, st)
  | m :: ms' =>
      if prefixParses m then
        let p := length (heap st) in
        skipAndContinue U ms' (<[OUI (entryOf U m) := p]> results)
          {| heap := heap st ++ [entryOf U m]; allOUIs := allOUIs st ++ [p] |}
      else skipAndContinue U ms' results st
  end.

(** ** The earlier version of the lookup

    The second source file of the repository is an earlier [main.go],
    without the address lookup: its [GetOUI] compares the stored prefix
    with the argument as it is given. *)

Module Earlier.

(** The [range] loop of [GetOUI]. *)
Fixpoint GetOUI_range (st : Memory) (ps : list ptr) (oui : string)
  : outcome (option ptr) :=
  match ps with
  | [] => Returned None
  | o :: ps' =>
      d ← deref st o;
      if String.eqb (OUI d) oui then Returned (Some o)
      else GetOUI_range st ps' oui
  end.

(** [func GetOUI] *)
Definition GetOUI (st : Memory) (oui : string) : outcome (option ptr) :=
  GetOUI_range st (allOUIs st) oui.

End Earlier.

(** ** More vocabulary *)

(** The last byte of a string, [None] for the empty string. *)
Fixpoint lastByte (s : string) : option ascii :=
  match s with
  | EmptyString => None
  | String c EmptyString => Some c
  | String _ s' => lastByte s'
  end.

(** The first byte of a string, [None] for the empty string. *)
Definition firstByte (s : string) : option ascii :=
  match s with
  | EmptyString => None
  | String c _ => Some c
  end.

(** [+] or [-] *)
Definition isSign (c : ascii) : bool := Ascii.eqb c "+" || Ascii.eqb c "-".

(** A memory whose slice [allOUIs] holds addresses of cells only. *)
Definition wellFormed (st : Memory) : Prop :=
  Forall (fun p => is_Some (heap st !! p)) (allOUIs st).

(** [t] is [s] without the ASCII white space at its two ends. *)
Definition trimmedOf (s t : string) : Prop :=
  (exists pre post,
     s = pre +:+ t +:+ post
     /\ Str.all strings.asciiSpace pre = true
     /\ Str.all strings.asciiSpace post = true)
  /\ (forall c, firstByte t = Some c -> strings.asciiSpace c = false)
  /\ (forall c, lastByte t = Some c -> strings.asciiSpace c = false).

(** A source with four records: two of them share the prefix [AABBCC],
    one has its prefix in lower case. *)
Definition sampleText : string :=
  privateRecord +:+ upperRecord "One" +:+ lowerRecord "Low" +:+ upperRecord "Two".

Definition sampleFiles : string -> option string := oneFile "oui.txt" sampleText.

Definition sampleMemory : Memory := memoryOf sampleText.

(** ** A source made of lines

    The specification describes the source as two-line records: a header
    line [XX-XX-XX (hex) <vendor_name>] immediately followed by a line
    [XXXXXX (base 16) <vendor_alternate_name>].  The definitions of this
    part follow those words: they owe nothing to the record pattern and
    to its search, and the loader is compared with them. *)


(** [XX-XX-XX]: three pairs of hexadecimal digits with hyphens between. *)
Definition isHeader (h : string) : bool :=
  match h with
  | String a (String b (String x (String c (String d (String y
      (String e (String f EmptyString))))))) =>
      Char.is_hex a && Char.is_hex b && Ascii.eqb x "-"
      && Char.is_hex c && Char.is_hex d && Ascii.eqb y "-"
      && Char.is_hex e && Char.is_hex f
  | _ => false
  end.













(** The lines of a text: the pieces between the line feeds. *)
Fixpoint linesOf (s : string) : list string :=
  match s with
  | EmptyString => [EmptyString]
  | String c s' =>
      if Ascii.eqb c regexp.newline then EmptyString :: linesOf s'
      else match linesOf s' with
           | l :: ls => String c l :: ls
           | [] => [String c EmptyString]
           end
  end.















(** * Facts *)

(** ** Bytes and strings *)

(** Case analysis on the 256 bytes. *)
Ltac each_byte c :=
  destruct c as [[] [] [] [] [] [] [] []].

Lemma hex_digit c :
  Char.is_hex c = true ->
  exists d, strconv.digit (Char.code c) = Some d /\ 0 <= d < 16.
Proof.
  each_byte c; vm_compute; intros H; try discriminate H;
    eexists; (split; [reflexivity | split; [discriminate | reflexivity]]).
Qed.

Lemma hex_no_sign c :
  Char.is_hex c = true -> Ascii.eqb c "+" = false /\ Ascii.eqb c "-" = false.
Proof.
  each_byte c; vm_compute; intros H; try discriminate H; by split.
Qed.

Lemma hex_ascii c : Char.is_hex c = true -> Char.is_ascii c = true.
Proof.
  each_byte c; vm_compute; intros H; try discriminate H; reflexivity.
Qed.

(** ** [ParseInt] on hexadecimal digits *)

Lemma digits_hex s n :
  Str.all Char.is_hex s = true ->
  0 <= n ->
  (n + 1) * 16 ^ Str.len s <= 2 ^ 48 ->
  exists v,
    strconv.digits 16 (2 ^ 48 - 1) (strconv.maxUint64 / 16 + 1) s n = (v, None)
    /\ n * 16 ^ Str.len s <= v < (n + 1) * 16 ^ Str.len s.
Proof.
  revert n. induction s as [|c s IH]; intros n Hall Hn Hbound.
  - exists n. split; [reflexivity|]. unfold Str.len. simpl. lia.
  - simpl in Hall. apply andb_prop in Hall as [Hc Hs].
    destruct (hex_digit c Hc) as (d & Hd & Hd16).
    assert (Hlen : Str.len (String c s) = Z.succ (Str.len s)).
    { unfold Str.len. simpl String.length. lia. }
    rewrite Hlen in *. rewrite Z.pow_succ_r in * by (unfold Str.len; lia).
    assert (Hpow : 1 <= 16 ^ Str.len s).
    { assert (0 < 16 ^ Str.len s) by (apply Z.pow_pos_nonneg; unfold Str.len; lia). lia. }
    assert (Hn48 : n * 16 + d + 1 <= 2 ^ 48) by nia.
    change (2 ^ 48) with 281474976710656 in *.
    simpl strconv.digits. rewrite Hd.
    replace (d >=? 16) with false by lia.
    change (strconv.maxUint64 / 16 + 1) with 1152921504606846976.
    replace (n >=? 1152921504606846976) with false by lia.
    unfold strconv.uint64_mod. change (2 ^ 64) with 18446744073709551616.
    rewrite (Z.mod_small (n * 16)) by lia.
    rewrite (Z.mod_small (n * 16 + d)) by lia.
    replace (n * 16 + d <? n * 16) with false by lia.
    replace (n * 16 + d >? 281474976710656 - 1) with false by lia.
    simpl orb. cbv iota.
    destruct (IH (n * 16 + d)) as (v & Hv & Hrange); [done | lia | nia |].
    exists v. split; [exact Hv | nia].
Qed.

(** Six hexadecimal digits are a number below [2^24]: [ParseInt] with base
    16 and 48 bits accepts them. *)
Lemma ParseInt_hex6 s :
  String.length s = 6%nat ->
  Str.all Char.is_hex s = true ->
  (strconv.ParseInt s 16 48).2 = None.
Proof.
  intros Hlen Hall.
  destruct s as [|c0 s1]; [discriminate Hlen|].
  assert (Hc0 : Char.is_hex c0 = true) by (simpl in Hall; by apply andb_prop in Hall as [? _]).
  destruct (hex_no_sign c0 Hc0) as [Hplus Hminus].
  unfold strconv.ParseInt. rewrite Hplus, Hminus. simpl orb. cbv iota.
  unfold strconv.ParseUint.
  change ((16 <? 2) || (16 >? 36)) with false. cbv iota.
  change (48 =? 0) with false. cbv iota.
  change ((48 <? 0) || (48 >? 64)) with false. cbv iota.
  destruct (digits_hex (String c0 s1) 0 Hall) as (v & Hv & Hrange); [lia | |].
  { unfold Str.len. rewrite Hlen. by vm_compute. }
  rewrite Hv. unfold Str.len in Hrange. rewrite Hlen in Hrange.
  change (16 ^ Z.of_nat 6) with 16777216 in Hrange.
  change (2 ^ (48 - 1)) with 140737488355328.
  simpl negb. simpl andb.
  replace (v >=? 140737488355328) with false by lia.
  reflexivity.
Qed.

(** ** The matcher *)

Section Matcher.

Import regexp.

Lemma exec_Seq r1 r2 t w t' :
  (w, t') ∈ exec (Seq r1 r2) t ->
  exists w1 t1 w2,
    (w1, t1) ∈ exec r1 t /\ (w2, t') ∈ exec r2 t1 /\ w = w1 +:+ w2.
Proof.
  simpl. intros H.
  apply list_elem_of_bind in H as ([w1 t1] & H & H1).
  apply list_elem_of_bind in H as ([w2 t2] & H & H2).
  apply list_elem_of_singleton in H. injection H as -> ->.
  by exists w1, t1, w2.
Qed.

Lemma exec_Times_S n r t w t' :
  (w, t') ∈ exec (Times (S n) r) t ->
  exists w1 t1 w2,
    (w1, t1) ∈ exec r t /\ (w2, t') ∈ exec (Times n r) t1 /\ w = w1 +:+ w2.
Proof.
  intros H. change (exec (Times (S n) r) t)
    with ('(w1, t1) ← exec r t; '(w2, t2) ← exec (Times n r) t1;
          [(w1 +:+ w2, t2)]) in H.
  apply list_elem_of_bind in H as ([w1 t1] & H & H1).
  apply list_elem_of_bind in H as ([w2 t2] & H & H2).
  apply list_elem_of_singleton in H. injection H as -> ->.
  by exists w1, t1, w2.
Qed.

Lemma exec_Times_O r t w t' :
  (w, t') ∈ exec (Times 0 r) t -> w = EmptyString /\ t' = t.
Proof.
  simpl. intros H. apply list_elem_of_singleton in H. by injection H as -> ->.
Qed.

Lemma exec_Group i name r t w t' :
  (w, t') ∈ exec (Group i name r) t ->
  exists t1, (w, t1) ∈ exec r t
             /\ t' = Thread (prev t1) (rest t1) (<[i:=w]> (caps t1)).
Proof.
  simpl. intros H.
  apply list_elem_of_bind in H as ([w1 t1] & H & H1).
  apply list_elem_of_singleton in H. injection H as -> ->.
  by exists t1.
Qed.

Lemma exec_Star p t w t' :
  (w, t') ∈ exec (Star p) t -> caps t' = caps t.
Proof.
  simpl. intros H. apply list_elem_of_fmap in H as ([w1 [b s]] & H & _).
  by injection H as -> ->.
Qed.

(** No item changes the number of submatches. *)
Lemma exec_caps_length r : forall t w t',
  (w, t') ∈ exec r t -> length (caps t') = length (caps t).
Proof.
  induction r as [|p|r1 IH1 r2 IH2|n r IH|p|i name r IH| |]; intros t w t' H.
  - simpl in H. apply list_elem_of_singleton in H. by injection H as -> ->.
  - simpl in H. destruct (rest t) as [|c s]; [by apply elem_of_nil in H|].
    destruct (p c); [|by apply elem_of_nil in H].
    apply list_elem_of_singleton in H. by injection H as -> ->.
  - apply exec_Seq in H as (w1 & t1 & w2 & H1 & H2 & ->).
    rewrite (IH2 _ _ _ H2). eauto.
  - revert t w t' H. induction n as [|n IHn]; intros t w t' H.
    + by apply exec_Times_O in H as [-> ->].
    + apply exec_Times_S in H as (w1 & t1 & w2 & H1 & H2 & ->).
      rewrite (IHn _ _ _ H2). eauto.
  - by rewrite (exec_Star _ _ _ _ H).
  - apply exec_Group in H as (t1 & H1 & ->). simpl.
    rewrite length_insert. eauto.
  - simpl in H. destruct (prev t) as [c|].
    + destruct (Ascii.eqb c newline); [|by apply elem_of_nil in H].
      apply list_elem_of_singleton in H. by injection H as -> ->.
    + apply list_elem_of_singleton in H. by injection H as -> ->.
  - simpl in H. destruct (rest t) as [|c s].
    + apply list_elem_of_singleton in H. by injection H as -> ->.
    + destruct (Ascii.eqb c newline); [|by apply elem_of_nil in H].
      apply list_elem_of_singleton in H. by injection H as -> ->.
Qed.

(** A submatch is only written by its own group. *)
Lemma exec_caps_other i r : forall t w t',
  sets i r = false ->
  (w, t') ∈ exec r t -> caps t' !! i = caps t !! i.
Proof.
  induction r as [|p|r1 IH1 r2 IH2|n r IH|p|j name r IH| |];
    intros t w t' Hi H.
  - simpl in H. apply list_elem_of_singleton in H. by injection H as -> ->.
  - simpl in H. destruct (rest t) as [|c s]; [by apply elem_of_nil in H|].
    destruct (p c); [|by apply elem_of_nil in H].
    apply list_elem_of_singleton in H. by injection H as -> ->.
  - simpl in Hi. apply orb_false_elim in Hi as [Hi1 Hi2].
    apply exec_Seq in H as (w1 & t1 & w2 & H1 & H2 & ->).
    rewrite (IH2 _ _ _ Hi2 H2). eauto.
  - simpl in Hi. revert t w t' H. induction n as [|n IHn]; intros t w t' H.
    + by apply exec_Times_O in H as [-> ->].
    + apply exec_Times_S in H as (w1 & t1 & w2 & H1 & H2 & ->).
      rewrite (IHn _ _ _ H2). eauto.
  - by rewrite (exec_Star _ _ _ _ H).
  - simpl in Hi. apply orb_false_elim in Hi as [Hij Hi].
    apply Nat.eqb_neq in Hij.
    apply exec_Group in H as (t1 & H1 & ->). simpl.
    rewrite list_lookup_insert_ne by done. eauto.
  - simpl in H. destruct (prev t) as [c|].
    + destruct (Ascii.eqb c newline); [|by apply elem_of_nil in H].
      apply list_elem_of_singleton in H. by injection H as -> ->.
    + apply list_elem_of_singleton in H. by injection H as -> ->.
  - simpl in H. destruct (rest t) as [|c s].
    + apply list_elem_of_singleton in H. by injection H as -> ->.
    + destruct (Ascii.eqb c newline); [|by apply elem_of_nil in H].
      apply list_elem_of_singleton in H. by injection H as -> ->.
Qed.

(** [x{n}] of a class matches [n] bytes of the class. *)
Lemma exec_Times_Char p n : forall t w t',
  (w, t') ∈ exec (Times n (Char p)) t ->
  String.length w = n /\ Str.all p w = true.
Proof.
  induction n as [|n IH]; intros t w t' H.
  - by apply exec_Times_O in H as [-> ->].
  - apply exec_Times_S in H as (w1 & t1 & w2 & H1 & H2 & ->).
    apply IH in H2 as [Hlen Hall].
    simpl in H1. destruct (rest t) as [|c s]; [by apply elem_of_nil in H1|].
    destruct (p c) eqn:Hp; [|by apply elem_of_nil in H1].
    apply list_elem_of_singleton in H1. injection H1 as -> ->.
    change (String c EmptyString +:+ w2) with (String c w2).
    simpl. rewrite Hp, Hall. by rewrite Hlen.
Qed.

End Matcher.

(** ** The record pattern *)

Section RecordPattern.

Import regexp Pattern.

Lemma ouiExp_groups :
  SubexpIndex ouiExp "OUI" = 4
  /\ SubexpIndex ouiExp "vendorName" = 3
  /\ SubexpIndex ouiExp "vendorAlternateName" = 5
  /\ NumSubexp ouiExp = 5%nat.
Proof. by vm_compute. Qed.

Lemma isRecord_whole w c :
  length c = 6%nat ->
  String.length (field c 4) = 6%nat ->
  Str.all Char.is_hex (field c 4) = true ->
  isRecord (<[0%nat:=w]> c).
Proof.
  intros Hlen H6 Hhex. unfold isRecord, field in *.
  rewrite length_insert, list_lookup_insert_ne by done. done.
Qed.

(** Whatever the text, the group [OUI] of a match holds six hexadecimal
    digits. *)
Lemma ouiExp_matchAt before s m :
  matchAt ouiExp before s = Some m -> isRecord m.
Proof.
  unfold matchAt.
  destruct (exec ouiExp _) as [|[w t] l] eqn:E; [done|].
  intros [= <-].
  assert (H : (w, t) ∈ exec ouiExp
                (Thread before s (replicate (S (NumSubexp ouiExp)) EmptyString)))
    by (rewrite E; left).
  clear E l. pose proof (exec_caps_length _ _ _ _ H) as Hlen.
  cbn [caps] in Hlen. rewrite length_replicate in Hlen.
  destruct ouiExp_groups as (_ & _ & _ & Hn). rewrite Hn in Hlen. clear Hn.
  unfold ouiExp in H.
  do 7 (apply exec_Seq in H as (? & ? & ? & _ & H & ->)).
  apply exec_Seq in H as (w4 & t4 & w5 & H4 & H5 & ->).
  apply exec_Group in H4 as (t4' & H4 & ->).
  apply exec_Times_Char in H4 as [Hlen4 Hhex4].
  assert (H5' := H5). apply (exec_caps_other 4) in H5'; [|reflexivity].
  pose proof (exec_caps_length _ _ _ _ H5) as Hlen5. cbn [caps] in *.
  rewrite length_insert in Hlen5.
  assert (Hf : field (caps t) 4 = w4).
  { unfold field. rewrite H5'. rewrite list_lookup_insert_eq by lia. done. }
  apply isRecord_whole; by rewrite ?Hf.
Qed.

End RecordPattern.

(** ** The successive matches *)

Section AllMatches.

Import regexp.

Ltac split_matches H :=
  simpl in H; repeat case_match;
  rewrite ?elem_of_cons, ?elem_of_nil in H;
  repeat match type of H with
         | False => destruct H
         | _ \/ _ => destruct H as [H|H]
         | (_, _) = (_, _) => injection H as -> ->
         end.

(** Each match listed is the preferred match at some position. *)
Lemma allMatches_elem r s : forall skip pos lastEnd before o m,
  (o, m) ∈ allMatches r skip pos lastEnd before s ->
  exists b s', matchAt r b s' = Some m.
Proof.
  induction s as [|c s IH]; intros [|k] pos lastEnd before o m H;
    split_matches H; eauto.
Qed.

(** The offsets grow from one match to the next. *)
Lemma allMatches_from r s : forall skip pos lastEnd before o m,
  (o, m) ∈ allMatches r skip pos lastEnd before s -> (pos <= o)%nat.
Proof.
  induction s as [|c s IH]; intros [|k] pos lastEnd before o m H;
    split_matches H; try lia; apply IH in H; lia.
Qed.

Lemma allMatches_sorted r s : forall skip pos lastEnd before,
  StronglySorted (fun a b => (a.1 < b.1)%nat)
    (allMatches r skip pos lastEnd before s).
Proof.
  induction s as [|c s IH]; intros [|k] pos lastEnd before; simpl;
    repeat case_match; repeat constructor; eauto.
  all: apply Forall_forall; intros [o m] Hin; apply allMatches_from in Hin;
    simpl; lia.
Qed.

End AllMatches.

(** ** Replacing the runs of a class *)

Section ReplaceRuns.

Import regexp.

Lemma star_head p b s :
  exists w e l, star p b s = (w, e) :: l /\ String.length w = Str.span p s.
Proof.
  revert b. induction s as [|c s IH]; intros b; simpl.
  - by eexists _, _, _.
  - destruct (p c).
    + destruct (IH (Some c)) as (w & e & l & -> & Hlen).
      eexists _, _, _. split; [reflexivity|]. simpl. by rewrite Hlen.
    + by eexists _, _, _.
Qed.

(** [x+] matches at a position exactly when a byte of the class stands
    there, and then takes the whole run. *)
Lemma matchAt_Plus p before s :
  match s with
  | String c s' =>
      if p c then
        exists m, matchAt (Plus p) before s = Some m
                  /\ String.length (whole m) = S (Str.span p s')
      else matchAt (Plus p) before s = None
  | EmptyString => matchAt (Plus p) before s = None
  end.
Proof.
  destruct s as [|c s']; [reflexivity|].
  unfold matchAt, Plus. simpl. destruct (p c); [|reflexivity].
  simpl. destruct (star_head p (Some c) s') as (w & [b e] & l & -> & Hlen).
  simpl. eexists. split; [reflexivity|].
  unfold whole. simpl.
  change (String c EmptyString +:+ w) with (String c w). simpl.
  change (EmptyString +:+ w) with w. by rewrite Hlen.
Qed.

Lemma replaceAll_Plus p s : forall skip pos lastEnd before,
  (skip <= Str.span p s)%nat ->
  replaceAll (Plus p) EmptyString skip pos lastEnd before s
  = Str.filter (fun c => negb (p c)) s.
Proof.
  induction s as [|c s IH]; intros skip pos lastEnd before Hskip.
  - simpl in Hskip. by replace skip with 0%nat by lia.
  - pose proof (matchAt_Plus p before (String c s)) as Hm.
    simpl in Hskip, Hm. destruct skip as [|k].
    + simpl replaceAll. destruct (p c) eqn:Hp.
      * destruct Hm as (m & -> & ->). simpl. rewrite Hp. simpl.
        change (EmptyString +:+ ?x) with x. by apply IH.
      * rewrite Hm. simpl. rewrite Hp. simpl. f_equal. apply IH. lia.
    + destruct (p c) eqn:Hp; [|lia]. simpl. rewrite Hp. simpl.
      apply IH. lia.
Qed.

Lemma filter_ext p q s :
  (forall c, p c = q c) -> Str.filter p s = Str.filter q s.
Proof.
  intros Hpq. induction s as [|c s IH]; simpl; [done|].
  by rewrite Hpq, IH.
Qed.

Lemma filter_all p s : Str.all p (Str.filter p s) = true.
Proof.
  induction s as [|c s IH]; simpl; [done|].
  destruct (p c) eqn:Hp; simpl; by rewrite ?Hp.
Qed.

(** The replacement of [normalizeMac] keeps the letters, the digits and
    the spaces of the address, and nothing else. *)
Lemma normalize_filter mac :
  ReplaceAllString Pattern.macExp mac "" = Str.filter Pattern.kept mac.
Proof.
  unfold ReplaceAllString, Pattern.macExp.
  rewrite replaceAll_Plus by lia.
  apply filter_ext. intros c. apply negb_involutive.
Qed.

End ReplaceRuns.

(** ** The loader *)

Section Loader.

Context (U : Unicode).

Lemma records_isRecord text : Forall isRecord (records text).
Proof.
  apply Forall_forall. intros m Hm.
  unfold records, regexp.FindAllStringSubmatch in Hm.
  apply list_elem_of_fmap in Hm as ([o m'] & -> & Hm).
  apply allMatches_elem in Hm as (b & s' & Hm).
  by apply ouiExp_matchAt in Hm.
Qed.

Lemma index_field m (i : Z) :
  0 <= i < Z.of_nat (length m) ->
  index m i = Returned (field m (Z.to_nat i)).
Proof.
  intros Hi. unfold index, field.
  replace (i <? 0) with false by lia.
  destruct (lookup_lt_is_Some_2 m (Z.to_nat i)) as [x ->]; [lia|done].
Qed.

Lemma record_parses m : isRecord m -> prefixParses m = true.
Proof.
  intros (_ & Hlen & Hhex). unfold prefixParses.
  apply bool_decide_eq_true. by apply ParseInt_hex6.
Qed.

(** The validation of [NewOUI] lets every record of the pattern through:
    the call of [log.Fatal] is not reached from the loader. *)
Lemma NewOUI_record m :
  isRecord m ->
  NewOUI U (field m 4) (field m 3) (field m 5) = Returned (entryOf U m, None).
Proof.
  intros (_ & Hlen & Hhex). unfold NewOUI.
  pose proof (ParseInt_hex6 _ Hlen Hhex) as Hp.
  destruct (strconv.ParseInt (field m 4) 16 48) as [v e]. simpl in Hp.
  by subst e.
Qed.

Lemma loadMatches_records ms : forall results st,
  Forall isRecord ms ->
  loadMatches U ms results st
  = Returned (mapOf (entryOf U <$> ms) (length (heap st)) results,
              {| heap := heap st ++ (entryOf U <$> ms);
                 allOUIs := allOUIs st ++ seq (length (heap st)) (length ms) |}).
Proof.
  induction ms as [|m ms IH]; intros results st Hms.
  - simpl. rewrite !app_nil_r. by destruct st.
  - apply Forall_cons in Hms as [Hm Hms].
    destruct ouiExp_groups as (H4 & H3 & H5 & _).
    simpl loadMatches. rewrite H4, H3, H5.
    assert (Hlen : length m = 6%nat) by apply Hm.
    rewrite (index_field m 4), (index_field m 3), (index_field m 5) by lia.
    change (Z.to_nat 4) with 4%nat. change (Z.to_nat 3) with 3%nat.
    change (Z.to_nat 5) with 5%nat.
    simpl. rewrite (NewOUI_record m Hm). simpl.
    rewrite IH by done. simpl. rewrite length_app. simpl.
    rewrite <- !(assoc_L (++)). simpl.
    by replace (length (heap st) + 1)%nat with (S (length (heap st))) by lia.
Qed.

Lemma makeMACHashMap_spec fs fileName text st :
  fs fileName = Some text ->
  makeMACHashMap U fs fileName st
  = Returned (mapOf (entryOf U <$> records text) (length (heap st)) ∅,
              {| heap := heap st ++ (entryOf U <$> records text);
                 allOUIs := allOUIs st
                            ++ seq (length (heap st)) (length (records text)) |}).
Proof.
  intros Hfs. unfold makeMACHashMap. rewrite Hfs.
  apply loadMatches_records, records_isRecord.
Qed.

(** What the handlers find in memory once [main] has loaded the file. *)
Lemma loaded_inv fs st :
  loaded U fs st ->
  exists text,
    fs "oui.txt" = Some text
    /\ heap st = entryOf U <$> records text
    /\ allOUIs st = seq 0 (length (records text)).
Proof.
  intros [results Hload]. unfold makeMACHashMap in Hload.
  destruct (fs "oui.txt") as [text|] eqn:Hfs; [|discriminate Hload].
  exists text. split; [done|].
  fold (records text) in Hload.
  rewrite loadMatches_records in Hload by apply records_isRecord.
  injection Hload as _ <-. done.
Qed.

End Loader.

(** ** Upper case *)

Section UpperCase.

Context (U : Unicode).

Lemma map_upper_fixed s :
  Str.any Char.is_lower s = false -> Str.map Char.to_upper s = s.
Proof.
  induction s as [|c s IH]; simpl; [done|].
  intros H. apply orb_false_elim in H as [Hc Hs].
  rewrite IH by done. unfold Char.to_upper. by rewrite Hc.
Qed.

(** On ASCII strings [ToUpper] moves each letter to upper case. *)
Lemma ToUpper_ascii s :
  Str.all Char.is_ascii s = true ->
  strings.ToUpper U s = Str.map Char.to_upper s.
Proof.
  intros Hs. unfold strings.ToUpper. rewrite Hs.
  destruct (Str.any Char.is_lower s) eqn:Hl; simpl; [done|].
  by rewrite map_upper_fixed.
Qed.

Lemma ToUpper_fixed s :
  Str.all Char.is_ascii s = true ->
  Str.any Char.is_lower s = false ->
  strings.ToUpper U s = s.
Proof.
  intros Hs Hl. rewrite ToUpper_ascii by done. by apply map_upper_fixed.
Qed.

Lemma to_upper_not_lower c :
  Char.is_ascii c = true -> Char.is_lower (Char.to_upper c) = false.
Proof.
  each_byte c; vm_compute; intros H; try discriminate H; reflexivity.
Qed.

(** The result of [ToUpper] on an ASCII string has no lower-case letter. *)
Lemma ToUpper_no_lower s :
  Str.all Char.is_ascii s = true ->
  Str.any Char.is_lower (strings.ToUpper U s) = false.
Proof.
  intros Hs. rewrite ToUpper_ascii by done.
  induction s as [|c s IH]; simpl; [done|].
  simpl in Hs. apply andb_prop in Hs as [Hc Hs].
  by rewrite to_upper_not_lower, IH.
Qed.

Lemma all_impl (p q : ascii -> bool) s :
  (forall c, p c = true -> q c = true) ->
  Str.all p s = true -> Str.all q s = true.
Proof.
  intros Hpq. induction s as [|c s IH]; simpl; [done|].
  intros H. apply andb_prop in H as [Hc Hs]. by rewrite Hpq, IH.
Qed.

End UpperCase.

(** ** The lookup *)

Section Lookup.

Context (U : Unicode).

(** [GetOUI] reads its argument through [ToUpper] only. *)
Lemma GetOUI_range_upper st ps a b :
  strings.ToUpper U a = strings.ToUpper U b ->
  GetOUI_range U st ps a = GetOUI_range U st ps b.
Proof.
  intros Hab. induction ps as [|p ps IH]; simpl; [done|].
  by rewrite Hab, IH.
Qed.

Lemma GetOUI_range_seq st oui es2 : forall es1,
  heap st = es1 ++ es2 ->
  GetOUI_range U st (seq (length es1) (length es2)) oui
  = Returned ((fun x => (length es1 + x.1)%nat)
                <$> list_find (fun e => OUI e = strings.ToUpper U oui) es2).
Proof.
  induction es2 as [|e es2 IH]; intros es1 Hheap; [done|].
  simpl. unfold deref. rewrite Hheap, list_lookup_middle by done. simpl.
  destruct (String.eqb_spec (OUI e) (strings.ToUpper U oui)) as [He|He].
  - rewrite decide_True by done. simpl. do 3 f_equal. lia.
  - rewrite decide_False by done.
    specialize (IH (es1 ++ [e])). rewrite length_app in IH. simpl in IH.
    replace (length es1 + 1)%nat with (S (length es1)) in IH by lia.
    rewrite IH by (by rewrite <- (assoc_L (++))).
    destruct (list_find _ es2) as [[i x]|]; simpl; [|done].
    do 2 f_equal. lia.
Qed.

(** On the memory the loader leaves, [GetOUI] returns the address of the
    first entry, in load order, whose prefix is the upper-cased
    argument. *)
Lemma GetOUI_loaded fs st oui :
  loaded U fs st ->
  GetOUI U st oui
  = Returned (fst <$> list_find (fun e => OUI e = strings.ToUpper U oui) (heap st)).
Proof.
  intros (text & _ & Hheap & Hall)%loaded_inv.
  unfold GetOUI. rewrite Hall.
  replace (length (records text)) with (length (heap st))
    by (by rewrite Hheap, length_fmap).
  pose proof (GetOUI_range_seq st oui (heap st) [] eq_refl) as Hr.
  change (length (@nil OUIData)) with 0%nat in Hr. rewrite Hr.
  by destruct (list_find _ (heap st)) as [[i x]|].
Qed.

Lemma loaded_lookup fs st i p :
  loaded U fs st ->
  ListOUIs st !! i = Some p -> p = i /\ is_Some (heap st !! p).
Proof.
  intros (text & _ & Hheap & Hall)%loaded_inv. unfold ListOUIs.
  rewrite Hall. intros [-> Hi]%lookup_seq. split; [done|].
  apply lookup_lt_is_Some. by rewrite Hheap, length_fmap.
Qed.

Lemma loaded_prefix fs st p d :
  loaded U fs st ->
  heap st !! p = Some d ->
  String.length (OUI d) = 6%nat /\ Str.all Char.is_hex (OUI d) = true.
Proof.
  intros (text & _ & Hheap & _)%loaded_inv. rewrite Hheap.
  rewrite list_lookup_fmap. intros Hd.
  destruct (records text !! p) as [m|] eqn:Hm; [|discriminate Hd].
  injection Hd as <-. simpl.
  pose proof (records_isRecord text) as Hrec.
  rewrite Forall_forall in Hrec.
  destruct (Hrec m) as (_ & ? & ?); [|done].
  by apply list_elem_of_lookup_2 in Hm.
Qed.

End Lookup.

(** * The claims *)

(** ** C1: a malformed prefix does not end the load *)

(** The path the claim guards against exists in [NewOUI]: called with a
    prefix that does not parse, it ends the process through [log.Fatal],
    and the [continue] of the loader is then never reached. *)
Lemma NewOUI_unparsable_exits (U : Unicode) vendorName vendorAlternateName :
  NewOUI U "GGGGGG" vendorName vendorAlternateName = Exited 1.
Proof. reflexivity. Qed.

(** The record with the prefix [GGGGGG] is no match of the pattern: it is
    left out, and the records before and after it are loaded. *)
Example malformed_record_skipped :
  makeMACHashMap asciiOnly
    (oneFile "oui.txt" (privateRecord +:+ malformedRecord +:+ upperRecord "Acme"))
    "oui.txt" start
  = Returned
      ({["ACDE48" := 0%nat; "AABBCC" := 1%nat]},
       {| heap := [ {| OUI := "ACDE48"; VendorName := "Private";
                       VendorAlternateName := "Private" |};
                    {| OUI := "AABBCC"; VendorName := "Acme";
                       VendorAlternateName := "Acme" |} ];
          allOUIs := [0%nat; 1%nat] |}).
Proof. by vm_compute. Qed.

(** On the records of a source the loader of the program and the loader
    that skips do the same. *)
Lemma loadMatches_skipAndContinue (U : Unicode) ms : forall results st,
  Forall isRecord ms ->
  loadMatches U ms results st = Returned (skipAndContinue U ms results st).
Proof.
  induction ms as [|m ms IH]; intros results st Hms; [done|].
  apply Forall_cons in Hms as [Hm Hms].
  destruct ouiExp_groups as (H4 & H3 & H5 & _).
  simpl loadMatches. rewrite H4, H3, H5.
  assert (Hlen : length m = 6%nat) by apply Hm.
  rewrite (index_field m 4), (index_field m 3), (index_field m 5) by lia.
  change (Z.to_nat 4) with 4%nat. change (Z.to_nat 3) with 3%nat.
  change (Z.to_nat 5) with 5%nat.
  simpl. rewrite (NewOUI_record U m Hm). simpl.
  rewrite (record_parses m Hm). by apply IH.
Qed.

(** C1. For every readable source and every memory before the load,
    [makeMACHashMap] returns what the loader that skips returns: a record
    whose prefix does not parse as a base-16 integer is dropped and the
    load goes on, and the process is ended neither by [log.Fatal] nor by
    a panic.  It does so because each record the pattern extracts passes
    the validation of [NewOUI] (its prefix is six hexadecimal digits);
    every entry the load stores has a prefix that parses. *)
Theorem malformed_prefix_never_aborts_load
    (U : Unicode) (fs : string -> option string) (fileName text : string)
    (st : Memory) :
  fs fileName = Some text ->
  makeMACHashMap U fs fileName st
  = Returned (skipAndContinue U (records text) ∅ st)
  /\ (forall m, m ∈ records text ->
        NewOUI U (field m 4) (field m 3) (field m 5)
        = Returned (entryOf U m, None))
  /\ exists new,
       heap (skipAndContinue U (records text) ∅ st).2 = heap st ++ new
       /\ Forall (fun d => (strconv.ParseInt (OUI d) 16 48).2 = None) new.
Proof.
  intros Hfs. pose proof (records_isRecord text) as Hrec.
  assert (Hload : makeMACHashMap U fs fileName st
                  = Returned (skipAndContinue U (records text) ∅ st)).
  { unfold makeMACHashMap. rewrite Hfs.
    by apply loadMatches_skipAndContinue. }
  split; [exact Hload|]. split.
  - intros m Hm. rewrite Forall_forall in Hrec. by apply NewOUI_record, Hrec.
  - exists (entryOf U <$> records text). split.
    + rewrite (makeMACHashMap_spec U fs fileName text st Hfs) in Hload.
      by injection Hload as <-.
    + apply Forall_fmap. eapply Forall_impl; [exact Hrec|].
      intros m (_ & Hlen & Hhex). by apply ParseInt_hex6.
Qed.

Lemma malformed_prefix_never_aborts_load_witness :
  let text := privateRecord +:+ malformedRecord +:+ upperRecord "Acme" in
  oneFile "oui.txt" text "oui.txt" = Some text
  /\ makeMACHashMap asciiOnly (oneFile "oui.txt" text) "oui.txt" start
     = Returned (skipAndContinue asciiOnly (records text) ∅ start).
Proof.
  intros text. split; [reflexivity|].
  apply (malformed_prefix_never_aborts_load asciiOnly
           (oneFile "oui.txt" text) "oui.txt" text start).
  reflexivity.
Defined.

(** ** C2: the lookup and the case of the stored prefix *)

(** C2, at a source the loader accepts: the pattern admits the digits
    [a-f], [NewOUI] stores the prefix as it is written, and [GetOUI]
    compares the stored prefix with the upper-cased argument.  The entry
    of the record [aabbcc] is loaded and listed, and no spelling of its
    prefix finds it. *)
Theorem lowercase_prefix_is_never_found (U : Unicode) :
  exists results st,
    makeMACHashMap U (oneFile "oui.txt" (lowerRecord "Acme")) "oui.txt" start
    = Returned (results, st)
    /\ ListOUIs st = [0%nat]
    /\ heap st !! 0%nat = Some {| OUI := "aabbcc"; VendorName := "Acme";
                                  VendorAlternateName := "Acme" |}
    /\ GetOUI U st "aabbcc" = Returned None
    /\ GetOUI U st "AABBCC" = Returned None
    /\ GetOUI U st "AaBbCc" = Returned None.
Proof. eexists _, _. by vm_compute. Qed.

(** The defect in general: an entry whose stored prefix has a lower-case
    letter is returned for no ASCII argument at all. *)
Lemma lowercase_prefix_unreachable (U : Unicode) fs st p d oui :
  loaded U fs st ->
  heap st !! p = Some d ->
  Str.any Char.is_lower (OUI d) = true ->
  Str.all Char.is_ascii oui = true ->
  GetOUI U st oui ≠ Returned (Some p).
Proof.
  intros Hl Hd Hlow Hascii. rewrite (GetOUI_loaded U fs st oui Hl).
  intros [= Hfind].
  destruct (list_find _ (heap st)) as [[q e]|] eqn:Hq; [|discriminate Hfind].
  simpl in Hfind. injection Hfind as ->.
  apply list_find_Some in Hq as (He & Hup & _).
  rewrite Hd in He. injection He as <-.
  pose proof (ToUpper_no_lower U oui Hascii) as Hno.
  rewrite <- Hup in Hno. congruence.
Qed.

(** What the claim says does hold for the prefixes stored without a
    lower-case letter: every spelling of such a prefix finds an entry
    with that prefix. *)
Lemma GetOUI_any_case (U : Unicode) fs st p d oui :
  loaded U fs st ->
  p ∈ ListOUIs st ->
  heap st !! p = Some d ->
  Str.any Char.is_lower (OUI d) = false ->
  Str.all Char.is_ascii oui = true ->
  Str.map Char.to_upper oui = OUI d ->
  exists q e, GetOUI U st oui = Returned (Some q)
              /\ q ∈ ListOUIs st /\ heap st !! q = Some e /\ OUI e = OUI d.
Proof.
  intros Hl Hp Hd Hlow Hascii Hup.
  rewrite (GetOUI_loaded U fs st oui Hl), ToUpper_ascii, Hup by done.
  destruct (list_find (fun e => OUI e = OUI d) (heap st)) as [[q e]|] eqn:Hfind.
  - apply list_find_Some in Hfind as (Hq & He & _).
    exists q, e. repeat split; try done.
    destruct (loaded_inv U fs st Hl) as (text & _ & Hheap & Hall).
    unfold ListOUIs. rewrite Hall. apply elem_of_seq.
    apply lookup_lt_Some in Hq. rewrite Hheap, length_fmap in Hq. lia.
  - apply list_find_None in Hfind. rewrite Forall_forall in Hfind.
    exfalso. apply (Hfind d); [|done]. by apply list_elem_of_lookup_2 in Hd.
Qed.

(** ** C3: what the normalization removes *)

(** The claim as it is written fails on an address with a space: the
    class of the pattern keeps the space, which is neither a letter nor a
    digit. *)
Lemma normalization_keeps_spaces :
  ~ Str.all (fun c => Char.is_letter c || Char.is_digit c)
      (regexp.ReplaceAllString Pattern.macExp "AABBCC 12345" "") = true.
Proof. by vm_compute. Qed.

(** C3, amended. The normalization removes every byte that is not an
    ASCII letter, a digit or a space, and nothing else: the normalized
    string is the address with those bytes kept, in their order, and so
    consists of ASCII letters, digits and spaces only. *)
Theorem normalization_keeps_letters_digits_spaces (mac : string) :
  regexp.ReplaceAllString Pattern.macExp mac "" = Str.filter Pattern.kept mac
  /\ Str.all (fun c => Char.is_letter c || Char.is_digit c || (Char.code c =? 32))
       (regexp.ReplaceAllString Pattern.macExp mac "") = true.
Proof.
  rewrite normalize_filter. split; [done|].
  eapply all_impl; [|apply filter_all].
  intros c. unfold Pattern.kept, Char.is_letter. done.
Qed.

(** ** C5: an address of the wrong length *)

(** C5. For every memory and every address whose normalized form (the
    result of the replacement in [normalizeMac]) is not 12 bytes long,
    [GetVendorFromMAC] returns, and returns the empty string, which is
    its not-found result: no panic, no exit. *)
Theorem wrong_length_is_not_found (U : Unicode) (st : Memory) (mac : string) :
  String.length (regexp.ReplaceAllString Pattern.macExp mac "") ≠ 12%nat ->
  GetVendorFromMAC U st mac = Returned "".
Proof.
  intros Hlen. unfold GetVendorFromMAC, normalizeMac.
  apply Nat.eqb_neq in Hlen. by rewrite Hlen.
Qed.

Lemma wrong_length_is_not_found_witness :
  String.length (regexp.ReplaceAllString Pattern.macExp "AA-BB-CC" "") ≠ 12%nat
  /\ GetVendorFromMAC asciiOnly (memoryOf (upperRecord "Acme")) "AA-BB-CC"
     = Returned "".
Proof.
  assert (H : String.length (regexp.ReplaceAllString Pattern.macExp "AA-BB-CC" "")
              ≠ 12%nat) by (vm_compute; lia).
  split; [exact H|].
  exact (wrong_length_is_not_found asciiOnly (memoryOf (upperRecord "Acme"))
           "AA-BB-CC" H).
Defined.

(** ** The address lookup on a normalized address of 12 bytes *)

Lemma GetVendorFromMAC_normalized (U : Unicode) (st : Memory) (mac : string) :
  let normalized := regexp.ReplaceAllString Pattern.macExp mac "" in
  String.length normalized = 12%nat ->
  GetVendorFromMAC U st mac
  = (found ← GetOUI U st (Str.take 6 normalized);
     match found with
     | Some p => d ← deref st p; Returned (VendorName d)
     | None => Returned ""
     end).
Proof.
  intros normalized Hlen.
  unfold GetVendorFromMAC, normalizeMac. fold normalized.
  rewrite Hlen. simpl. unfold sliceTo. by rewrite Hlen.
Qed.

(** On the memory the loader leaves, the address lookup returns for every
    address: it neither panics nor ends the process. *)
Lemma GetVendorFromMAC_returns (U : Unicode) fs st mac :
  loaded U fs st -> exists vendor, GetVendorFromMAC U st mac = Returned vendor.
Proof.
  intros Hl.
  destruct (decide (String.length (regexp.ReplaceAllString Pattern.macExp mac "")
                    = 12%nat)) as [Hlen|Hlen].
  - rewrite (GetVendorFromMAC_normalized U st mac Hlen).
    rewrite (GetOUI_loaded U fs st _ Hl).
    destruct (list_find _ (heap st)) as [[q e]|] eqn:Hfind; simpl; [|by eexists].
    apply list_find_Some in Hfind as (Hq & _ & _).
    unfold deref. rewrite Hq. by eexists.
  - exists "". unfold GetVendorFromMAC, normalizeMac.
    apply Nat.eqb_neq in Hlen. by rewrite Hlen.
Qed.

(** ** C6: an address of the right length *)

(** C6. For every memory and every address whose normalized form is 12
    bytes long, [GetVendorFromMAC] is [GetOUI] on the first six bytes of
    the normalized form, followed by the choice of the field
    [VendorName] of the entry found, or of the empty string when none is
    found. *)
Theorem right_length_delegates_to_GetOUI
    (U : Unicode) (st : Memory) (mac : string) :
  let normalized := regexp.ReplaceAllString Pattern.macExp mac "" in
  String.length normalized = 12%nat ->
  GetVendorFromMAC U st mac
  = (found ← GetOUI U st (Str.take 6 normalized);
     match found with
     | Some p => d ← deref st p; Returned (VendorName d)
     | None => Returned ""
     end)
  /\ (forall p d, GetOUI U st (Str.take 6 normalized) = Returned (Some p) ->
                  heap st !! p = Some d ->
                  GetVendorFromMAC U st mac = Returned (VendorName d))
  /\ (GetOUI U st (Str.take 6 normalized) = Returned None ->
      GetVendorFromMAC U st mac = Returned "").
Proof.
  intros normalized Hlen.
  pose proof (GetVendorFromMAC_normalized U st mac Hlen) as Heq.
  fold normalized in Heq.
  split; [exact Heq|]. split.
  - intros p d Hget Hd. rewrite Heq, Hget. simpl. unfold deref. by rewrite Hd.
  - intros Hget. by rewrite Heq, Hget.
Qed.

Lemma right_length_delegates_to_GetOUI_witness :
  let st := memoryOf privateRecord in
  let normalized := regexp.ReplaceAllString Pattern.macExp "ac:de:48:11:22:33" "" in
  String.length normalized = 12%nat
  /\ GetVendorFromMAC asciiOnly st "ac:de:48:11:22:33" = Returned "Private".
Proof.
  intros st normalized.
  assert (Hlen : String.length normalized = 12%nat) by reflexivity.
  split; [exact Hlen|].
  destruct (right_length_delegates_to_GetOUI asciiOnly st "ac:de:48:11:22:33" Hlen)
    as (_ & Hfound & _).
  apply (Hfound 0%nat {| OUI := "ACDE48"; VendorName := "Private";
                        VendorAlternateName := "Private" |}); reflexivity.
Defined.

(** ** C7: delimiters and case of an address *)

(** C7. Whatever the memory (and so for every loaded registry),
    [GetVendorFromMAC] gives one and the same result for the three
    spellings of the address. *)
Theorem three_spellings_one_result (U : Unicode) (st : Memory) :
  GetVendorFromMAC U st "AA-BB-CC-11-22-33"
  = GetVendorFromMAC U st "AABBCC112233"
  /\ GetVendorFromMAC U st "aa:bb:cc:11:22:33"
     = GetVendorFromMAC U st "AABBCC112233".
Proof.
  split; [reflexivity|].
  unfold GetVendorFromMAC, GetOUI.
  change (normalizeMac "aa:bb:cc:11:22:33") with ("aabbcc112233", @None error).
  change (normalizeMac "AABBCC112233") with ("AABBCC112233", @None error).
  change (sliceTo "aabbcc112233" 6) with (Returned "aabbcc").
  change (sliceTo "AABBCC112233" 6) with (Returned "AABBCC").
  simpl. by rewrite (GetOUI_range_upper U st (allOUIs st) "aabbcc" "AABBCC").
Qed.

(** ** C9: an empty vendor name and the not-found result *)

(** C9. The not-found result of [GetVendorFromMAC] is the empty string,
    and an address whose prefix finds an entry with an empty
    [VendorName] gives the empty string too: its result is the result of
    an address that finds nothing. *)
Theorem empty_vendor_looks_like_not_found
    (U : Unicode) (st : Memory) (mac other : string) (p : ptr) (d : OUIData) :
  let normalized := regexp.ReplaceAllString Pattern.macExp mac "" in
  let normalized' := regexp.ReplaceAllString Pattern.macExp other "" in
  String.length normalized = 12%nat ->
  GetOUI U st (Str.take 6 normalized) = Returned (Some p) ->
  heap st !! p = Some d ->
  VendorName d = "" ->
  String.length normalized' = 12%nat ->
  GetOUI U st (Str.take 6 normalized') = Returned None ->
  GetVendorFromMAC U st other = Returned ""
  /\ GetVendorFromMAC U st mac = Returned ""
  /\ GetVendorFromMAC U st mac = GetVendorFromMAC U st other.
Proof.
  intros normalized normalized' Hlen Hget Hd Hname Hlen' Hget'.
  rewrite (GetVendorFromMAC_normalized U st mac Hlen).
  rewrite (GetVendorFromMAC_normalized U st other Hlen').
  fold normalized normalized'. rewrite Hget, Hget'. simpl.
  unfold deref. rewrite Hd. simpl. by rewrite Hname.
Qed.

Lemma empty_vendor_looks_like_not_found_witness :
  let st := memoryOf blankVendorRecord in
  heap st !! 0%nat = Some {| OUI := "AABBCC"; VendorName := "";
                             VendorAlternateName := "Blank" |}
  /\ GetVendorFromMAC asciiOnly st "00:00:00:00:00:00" = Returned ""
  /\ GetVendorFromMAC asciiOnly st "aa:bb:cc:00:00:01" = Returned ""
  /\ GetVendorFromMAC asciiOnly st "aa:bb:cc:00:00:01"
     = GetVendorFromMAC asciiOnly st "00:00:00:00:00:00".
Proof.
  intros st. split; [reflexivity|].
  apply (empty_vendor_looks_like_not_found asciiOnly st
           "aa:bb:cc:00:00:01" "00:00:00:00:00:00" 0%nat
           {| OUI := "AABBCC"; VendorName := "";
              VendorAlternateName := "Blank" |}); reflexivity.
Defined.

(** ** C4: from the list back to the lookup *)

(** The claim as it is written fails on a source with two records of one
    prefix: the second entry is listed, and the lookup of its prefix
    gives the first entry, which has another vendor name. *)
Lemma duplicate_prefix_breaks_round_trip :
  let fs := oneFile "oui.txt" (upperRecord "One" +:+ upperRecord "Two") in
  let st := memoryOf (upperRecord "One" +:+ upperRecord "Two") in
  loaded asciiOnly fs st
  /\ ~ (forall p d,
          p ∈ ListOUIs st -> heap st !! p = Some d ->
          exists q, GetOUI asciiOnly st (OUI d) = Returned (Some q)
                    /\ heap st !! q = Some d).
Proof.
  intros fs st. split.
  - eexists. by vm_compute.
  - intros H.
    destruct (H 1%nat {| OUI := "AABBCC"; VendorName := "Two";
                         VendorAlternateName := "Two" |})
      as (q & Hq & Hd).
    + by apply (list_elem_of_lookup_2 _ 1%nat).
    + reflexivity.
    + vm_compute in Hq. injection Hq as <-. vm_compute in Hd. discriminate Hd.
Qed.

(** C4, amended. For every entry of the list whose prefix has no
    lower-case letter, [GetOUI] on that prefix returns the entry loaded
    first among those with that prefix; it is the entry itself when no
    entry loaded before it has the same prefix. *)
Theorem get_own_prefix_returns_first_loaded
    (U : Unicode) (fs : string -> option string) (st : Memory)
    (i : nat) (p : ptr) (d : OUIData) :
  loaded U fs st ->
  ListOUIs st !! i = Some p ->
  heap st !! p = Some d ->
  Str.any Char.is_lower (OUI d) = false ->
  exists j q e,
    GetOUI U st (OUI d) = Returned (Some q)
    /\ ListOUIs st !! j = Some q /\ heap st !! q = Some e
    /\ OUI e = OUI d /\ (j <= i)%nat
    /\ (forall k r f, (k < j)%nat -> ListOUIs st !! k = Some r ->
                      heap st !! r = Some f -> OUI f ≠ OUI d)
    /\ ((forall k r f, (k < i)%nat -> ListOUIs st !! k = Some r ->
                       heap st !! r = Some f -> OUI f ≠ OUI d) ->
        q = p /\ e = d).
Proof.
  intros Hl Hi Hd Hlow.
  destruct (loaded_lookup U fs st i p Hl Hi) as [-> _].
  destruct (loaded_prefix U fs st i d Hl Hd) as [_ Hhex].
  assert (Hascii : Str.all Char.is_ascii (OUI d) = true)
    by (eapply all_impl; [apply hex_ascii | exact Hhex]).
  rewrite (GetOUI_loaded U fs st (OUI d) Hl), ToUpper_fixed by done.
  destruct (loaded_inv U fs st Hl) as (text & _ & Hheap & Hall).
  assert (Hlist : forall k r, ListOUIs st !! k = Some r ->
                              r = k /\ (k < length (heap st))%nat).
  { intros k r Hk. unfold ListOUIs in Hk. rewrite Hall in Hk.
    apply lookup_seq in Hk as [-> Hk]. by rewrite Hheap, length_fmap. }
  destruct (list_find (fun e => OUI e = OUI d) (heap st)) as [[j e]|] eqn:Hfind.
  - apply list_find_Some in Hfind as (Hj & He & Hmin).
    assert (Hji : (j <= i)%nat).
    { destruct (decide (j <= i)%nat) as [|Hn]; [done|].
      exfalso. apply (Hmin i d); [done|lia|done]. }
    exists j, j, e. repeat split; try done.
    + unfold ListOUIs. rewrite Hall. apply lookup_seq. split; [done|].
      apply lookup_lt_Some in Hj. by rewrite Hheap, length_fmap in Hj.
    + intros k r f Hk Hr Hf. apply Hlist in Hr as [-> _]. by apply (Hmin k f).
    + destruct (decide (j = i)) as [|Hn]; [done|]. exfalso.
      apply (H j j e); [lia| |done|done].
      unfold ListOUIs. rewrite Hall. apply lookup_seq. split; [done|].
      apply lookup_lt_Some in Hj. by rewrite Hheap, length_fmap in Hj.
    + destruct (decide (j = i)) as [->|Hn];
        [congruence|]. exfalso.
      apply (H j j e); [lia| |done|done].
      unfold ListOUIs. rewrite Hall. apply lookup_seq. split; [done|].
      apply lookup_lt_Some in Hj. by rewrite Hheap, length_fmap in Hj.
  - apply list_find_None in Hfind. rewrite Forall_forall in Hfind.
    exfalso. apply (Hfind d); [|done]. by apply list_elem_of_lookup_2 in Hd.
Qed.

Lemma get_own_prefix_returns_first_loaded_witness :
  let fs := oneFile "oui.txt" (upperRecord "One" +:+ upperRecord "Two") in
  let st := memoryOf (upperRecord "One" +:+ upperRecord "Two") in
  let d := {| OUI := "AABBCC"; VendorName := "Two"; VendorAlternateName := "Two" |} in
  loaded asciiOnly fs st
  /\ ListOUIs st !! 1%nat = Some 1%nat
  /\ heap st !! 1%nat = Some d
  /\ Str.any Char.is_lower (OUI d) = false
  /\ exists j q e,
       GetOUI asciiOnly st (OUI d) = Returned (Some q)
       /\ ListOUIs st !! j = Some q /\ heap st !! q = Some e
       /\ OUI e = OUI d /\ (j <= 1)%nat
       /\ (forall k r f, (k < j)%nat -> ListOUIs st !! k = Some r ->
                         heap st !! r = Some f -> OUI f ≠ OUI d)
       /\ ((forall k r f, (k < 1)%nat -> ListOUIs st !! k = Some r ->
                          heap st !! r = Some f -> OUI f ≠ OUI d) ->
           q = 1%nat /\ e = d).
Proof.
  intros fs st d.
  assert (Hl : loaded asciiOnly fs st) by (eexists; reflexivity).
  split; [exact Hl|]. do 3 (split; [reflexivity|]).
  exact (get_own_prefix_returns_first_loaded asciiOnly fs st 1%nat 1%nat d
           Hl eq_refl eq_refl eq_refl).
Defined.

(** ** The entries behind the list

    The order and the number of the entries (C8) come with the loader on
    a source made of lines, in the last part. *)


Lemma found_all_parse text :
  filter (fun r : nat * list string => prefixParses r.2)
    (regexp.FindAllStringSubmatchIndex Pattern.ouiExp text)
  = regexp.FindAllStringSubmatchIndex Pattern.ouiExp text.
Proof.
  pose proof (records_isRecord text) as Hrec.
  unfold records, regexp.FindAllStringSubmatch in Hrec.
  apply Forall_fmap in Hrec.
  generalize dependent (regexp.FindAllStringSubmatchIndex Pattern.ouiExp text).
  intros found Hrec.
  induction found as [|r l IH]; [done|].
  apply Forall_cons in Hrec as [Hr Hl].
  rewrite filter_cons_True; [by rewrite IH|].
  simpl in Hr. by rewrite (record_parses _ Hr).
Qed.

(** ** C10: two records with one prefix *)

(** C10, at a source the loader accepts: two records with the prefix
    [aabbcc].  Both entries are listed and the map holds the second one,
    as the claim says, but [GetOUI] on the prefix returns nil, not the
    entry loaded first. *)
Theorem lowercase_duplicates_are_not_found (U : Unicode) :
  exists results st,
    makeMACHashMap U
      (oneFile "oui.txt" (lowerRecord "One" +:+ lowerRecord "Two"))
      "oui.txt" start
    = Returned (results, st)
    /\ ListOUIs st = [0%nat; 1%nat]
    /\ heap st = [ {| OUI := "aabbcc"; VendorName := "One";
                      VendorAlternateName := "One" |};
                   {| OUI := "aabbcc"; VendorName := "Two";
                      VendorAlternateName := "Two" |} ]
    /\ results !! "aabbcc" = Some 1%nat
    /\ GetOUI U st "aabbcc" = Returned None.
Proof. eexists _, _. by vm_compute. Qed.

(** The map keeps, for each prefix, the address of the entry loaded
    last. *)
Lemma mapOf_absent es : forall base (results : gmap string nat) k,
  (forall e, e ∈ es -> OUI e ≠ k) ->
  mapOf es base results !! k = results !! k.
Proof.
  induction es as [|e es IH]; intros base results k Hk; [done|].
  simpl. rewrite IH by (intros f Hf; apply Hk; by right).
  apply lookup_insert_ne, Hk. by left.
Qed.

Lemma mapOf_last es : forall base (results : gmap string nat) i e,
  es !! i = Some e ->
  (forall j f, (i < j)%nat -> es !! j = Some f -> OUI f ≠ OUI e) ->
  mapOf es base results !! OUI e = Some (base + i)%nat.
Proof.
  induction es as [|e0 es IH]; intros base results i e Hi Hlast; [done|].
  destruct i as [|i]; simpl in Hi.
  - injection Hi as ->. simpl. rewrite mapOf_absent.
    + rewrite lookup_insert_eq. f_equal. lia.
    + intros f Hf. apply list_elem_of_lookup_1 in Hf as [j Hj].
      apply (Hlast (S j)); [lia|done].
  - simpl. rewrite (IH _ _ i e Hi).
    + f_equal. lia.
    + intros j f Hj Hf. apply (Hlast (S j)); [lia|done].
Qed.

(** What the claim says does hold when the prefix of the two records has
    no lower-case letter: [GetOUI] returns the entry loaded first, the
    map holds the entry loaded last, and both are listed. *)
Lemma duplicates_first_wins_last_wins
    (U : Unicode) fs results st (i j : nat) (d e : OUIData) :
  makeMACHashMap U fs "oui.txt" start = Returned (results, st) ->
  heap st !! i = Some d ->
  heap st !! j = Some e ->
  OUI e = OUI d ->
  Str.any Char.is_lower (OUI d) = false ->
  (forall k f, (k < i)%nat -> heap st !! k = Some f -> OUI f ≠ OUI d) ->
  (forall k f, (j < k)%nat -> heap st !! k = Some f -> OUI f ≠ OUI d) ->
  GetOUI U st (OUI d) = Returned (Some i)
  /\ results !! OUI d = Some j
  /\ i ∈ ListOUIs st /\ j ∈ ListOUIs st.
Proof.
  intros Hload Hi Hj Hsame Hlow Hfirst Hlast.
  assert (Hl : loaded U fs st) by (by exists results).
  destruct (loaded_inv U fs st Hl) as (text & Hfs & Hheap & Hall).
  destruct (loaded_prefix U fs st i d Hl Hi) as [_ Hhex].
  assert (Hascii : Str.all Char.is_ascii (OUI d) = true)
    by (eapply all_impl; [apply hex_ascii | exact Hhex]).
  repeat split.
  - rewrite (GetOUI_loaded U fs st (OUI d) Hl), ToUpper_fixed by done.
    destruct (list_find (fun f => OUI f = OUI d) (heap st)) as [[k f]|] eqn:Hfind.
    + apply list_find_Some in Hfind as (Hk & Hf & Hmin). simpl.
      destruct (Nat.lt_trichotomy k i) as [Hlt|[->|Hgt]]; [|done|].
      * by destruct (Hfirst k f Hlt Hk).
      * by destruct (Hmin i d Hi Hgt).
    + apply list_find_None in Hfind. rewrite Forall_forall in Hfind.
      exfalso. apply (Hfind d); [|done]. by apply list_elem_of_lookup_2 in Hi.
  - rewrite (makeMACHashMap_spec U fs "oui.txt" text start Hfs) in Hload.
    injection Hload as <- _. rewrite <- Hheap, <- Hsame.
    change (length (heap start)) with 0%nat.
    rewrite (mapOf_last (heap st) 0 ∅ j e Hj); [done|].
    intros k f Hk Hf. rewrite Hsame. by apply (Hlast k f).
  - unfold ListOUIs. rewrite Hall. apply elem_of_seq.
    apply lookup_lt_Some in Hi. rewrite Hheap, length_fmap in Hi. lia.
  - unfold ListOUIs. rewrite Hall. apply elem_of_seq.
    apply lookup_lt_Some in Hj. rewrite Hheap, length_fmap in Hj. lia.
Qed.

(** ** Scenarios of the specification *)

Example resolve_private :
  GetVendorFromMAC asciiOnly (memoryOf privateRecord) "ac:de:48:11:22:33"
  = Returned "Private".
Proof. reflexivity. Qed.

Example resolve_unknown :
  GetVendorFromMAC asciiOnly (memoryOf privateRecord) "zz-zz-zz-zz-zz-zz"
  = Returned "".
Proof. reflexivity. Qed.

Example resolve_short :
  GetVendorFromMAC asciiOnly (memoryOf privateRecord) "AA-BB-CC" = Returned "".
Proof. reflexivity. Qed.

(** An address with a space in it passes the length check of
    [normalizeMac] and is looked up by its first six bytes. *)
Example resolve_with_space :
  GetVendorFromMAC asciiOnly (memoryOf privateRecord) "ACDE48 12345"
  = Returned "Private".
Proof. reflexivity. Qed.

(** * Further properties of the code *)

(** ** Strings *)

Lemma string_app_nil_r s : s +:+ "" = s.
Proof. induction s as [|c s IH]; [done|]. unfold String.app. simpl. by f_equal. Qed.

Lemma string_app_assoc s1 s2 s3 : (s1 +:+ s2) +:+ s3 = s1 +:+ s2 +:+ s3.
Proof.
  induction s1 as [|c s1 IH]; [done|].
  change (String c (s1 +:+ s2) +:+ s3 = String c (s1 +:+ s2 +:+ s3)).
  change (String c ((s1 +:+ s2) +:+ s3) = String c (s1 +:+ s2 +:+ s3)).
  by f_equal.
Qed.

Lemma string_app_cons c s1 s2 : String c s1 +:+ s2 = String c (s1 +:+ s2).
Proof. reflexivity. Qed.

Lemma string_length_app s1 s2 :
  String.length (s1 +:+ s2) = (String.length s1 + String.length s2)%nat.
Proof.
  induction s1 as [|c s1 IH]; [done|]. rewrite string_app_cons. simpl. by rewrite IH.
Qed.

Lemma string_all_app p s1 s2 : Str.all p (s1 +:+ s2) = Str.all p s1 && Str.all p s2.
Proof.
  induction s1 as [|c s1 IH]; [done|]. rewrite string_app_cons. simpl.
  by rewrite IH, andb_assoc.
Qed.

Lemma lastByte_snoc s c : lastByte (s +:+ String c "") = Some c.
Proof.
  induction s as [|a s IH]; [done|]. rewrite string_app_cons.
  simpl. rewrite IH. by destruct (s +:+ String c "").
Qed.

Lemma all_false_impl (p q : ascii -> bool) s :
  (forall c, p c = true -> q c = true) ->
  Str.all q s = false -> Str.all p s = false.
Proof.
  intros Hpq Hq. destruct (Str.all p s) eqn:Hp; [|done].
  by rewrite (all_impl p q s Hpq Hp) in Hq.
Qed.

(** ** [NewOUI]: which prefixes pass the validation *)

Lemma digit_hex_inv c d :
  strconv.digit (Char.code c) = Some d -> d < 16 -> Char.is_hex c = true.
Proof.
  each_byte c; vm_compute; intros H; try discriminate H;
    injection H as <-; intros Hd; try reflexivity; discriminate Hd.
Qed.

(** One to eleven hexadecimal digits are a number below [2^44]. *)
Lemma ParseUint_hex s :
  (1 <= String.length s <= 11)%nat ->
  Str.all Char.is_hex s = true ->
  exists v, strconv.ParseUint s 16 48 = (v, None) /\ 0 <= v < 2 ^ 44.
Proof.
  intros Hlen Hall. unfold strconv.ParseUint.
  destruct s as [|c s]; [simpl in Hlen; lia|].
  change ((16 <? 2) || (16 >? 36)) with false. cbv iota.
  change (48 =? 0) with false. cbv iota.
  change ((48 <? 0) || (48 >? 64)) with false. cbv iota.
  assert (H16 : 16 ^ Str.len (String c s) <= 16 ^ 11).
  { apply Z.pow_le_mono_r; unfold Str.len; lia. }
  assert (Hpos : 0 < 16 ^ Str.len (String c s)).
  { apply Z.pow_pos_nonneg; unfold Str.len; lia. }
  change (16 ^ 11) with 17592186044416 in H16.
  destruct (digits_hex (String c s) 0 Hall) as (v & Hv & Hrange); [lia | |].
  { change (2 ^ 48) with 281474976710656. lia. }
  exists v. split; [exact Hv|]. change (2 ^ 44) with 17592186044416. lia.
Qed.

Lemma ParseInt_hex s :
  (1 <= String.length s <= 11)%nat ->
  Str.all Char.is_hex s = true ->
  (strconv.ParseInt s 16 48).2 = None.
Proof.
  intros Hlen Hall.
  destruct (ParseUint_hex s Hlen Hall) as (v & Hv & Hrange).
  destruct s as [|c0 s1]; [simpl in Hlen; lia|].
  assert (Hc0 : Char.is_hex c0 = true)
    by (simpl in Hall; by apply andb_prop in Hall as [? _]).
  destruct (hex_no_sign c0 Hc0) as [Hplus Hminus].
  unfold strconv.ParseInt. rewrite Hplus, Hminus. simpl orb. cbv iota.
  rewrite Hv. change (2 ^ 44) with 17592186044416 in Hrange.
  change (48 =? 0) with false. cbv iota.
  change (2 ^ (48 - 1)) with 140737488355328.
  simpl negb. simpl andb.
  replace (v >=? 140737488355328) with false by lia. reflexivity.
Qed.

Lemma ParseInt_signed_hex c s :
  isSign c = true ->
  (1 <= String.length s <= 11)%nat ->
  Str.all Char.is_hex s = true ->
  (strconv.ParseInt (String c s) 16 48).2 = None.
Proof.
  intros Hc Hlen Hall.
  destruct (ParseUint_hex s Hlen Hall) as (v & Hv & Hrange).
  change (2 ^ 44) with 17592186044416 in Hrange.
  unfold strconv.ParseInt. unfold isSign in Hc.
  replace (Ascii.eqb c "+" || Ascii.eqb c "-") with true. cbv iota.
  rewrite Hv. change (48 =? 0) with false. cbv iota.
  change (2 ^ (48 - 1)) with 140737488355328.
  replace (v >=? 140737488355328) with false by lia.
  replace (v >? 140737488355328) with false by lia.
  rewrite !andb_false_r. reflexivity.
Qed.

(** The digit loop fails on a byte that is no hexadecimal digit, and a
    range error comes with the largest value. *)
Lemma digits_non_hex maxVal cutoff s : forall n,
  Str.all Char.is_hex s = false ->
  exists v e, strconv.digits 16 maxVal cutoff s n = (v, Some e)
              /\ (e = strconv.ErrRange -> v = maxVal).
Proof.
  induction s as [|c s IH]; intros n Hall; [discriminate Hall|].
  simpl in Hall. simpl.
  destruct (strconv.digit (Char.code c)) as [d|] eqn:Hd;
    [|by eexists _, _].
  destruct (d >=? 16) eqn:Hd16; [by eexists _, _|].
  destruct (n >=? cutoff); [by eexists _, _|].
  match goal with |- context [if ?b then _ else _] => destruct b end;
    [by eexists _, _|].
  apply IH. rewrite (digit_hex_inv c d Hd) in Hall by lia. exact Hall.
Qed.

Lemma ParseInt_non_hex s :
  s = "" \/ Str.all (fun c => Char.is_hex c || isSign c) s = false ->
  (strconv.ParseInt s 16 48).2 ≠ None.
Proof.
  intros [->|Hall]; [done|].
  destruct s as [|c0 s1]; [discriminate Hall|].
  unfold strconv.ParseInt.
  set (body := if Ascii.eqb c0 "+" || Ascii.eqb c0 "-" then s1 else String c0 s1).
  assert (Hbody : Str.all Char.is_hex body = false).
  { subst body. destruct (Ascii.eqb c0 "+" || Ascii.eqb c0 "-") eqn:Hsign.
    - simpl in Hall. unfold isSign in Hall at 1. rewrite Hsign in Hall.
      rewrite orb_true_r in Hall. simpl in Hall.
      eapply all_false_impl; [|exact Hall]. intros c Hc. simpl. by rewrite Hc.
    - eapply all_false_impl; [|exact Hall]. intros c Hc. simpl. by rewrite Hc. }
  unfold strconv.ParseUint.
  destruct body as [|b body']; [discriminate Hbody|].
  change ((16 <? 2) || (16 >? 36)) with false. cbv iota.
  change (48 =? 0) with false. cbv iota.
  change ((48 <? 0) || (48 >? 64)) with false. cbv iota.
  destruct (digits_non_hex (2 ^ 48 - 1) (strconv.maxUint64 / 16 + 1)
              (String b body') 0 Hbody) as (v & e & -> & Hv).
  destruct e; simpl; try done.
  rewrite (Hv eq_refl).
  change (2 ^ (48 - 1)) with 140737488355328.
  change (2 ^ 48 - 1) with 281474976710655.
  destruct (Ascii.eqb c0 "-"); simpl; done.
Qed.

(** X1. [NewOUI] accepts every prefix of one to eleven hexadecimal
    digits, whatever the names: it returns, without error, the entry
    with the prefix as it is given (in its own case) and the two names
    trimmed. *)
Theorem NewOUI_accepts_hex_digits
    (U : Unicode) (oui vendorName vendorAlternateName : string) :
  (1 <= String.length oui <= 11)%nat ->
  Str.all Char.is_hex oui = true ->
  NewOUI U oui vendorName vendorAlternateName
  = Returned ({| OUI := oui;
                 VendorName := strings.TrimSpace U vendorName;
                 VendorAlternateName := strings.TrimSpace U vendorAlternateName |},
              None).
Proof.
  intros Hlen Hall. unfold NewOUI.
  pose proof (ParseInt_hex oui Hlen Hall) as Hp.
  destruct (strconv.ParseInt oui 16 48) as [v e]. simpl in Hp. by subst e.
Qed.

Lemma NewOUI_accepts_hex_digits_witness :
  (1 <= String.length "00aB9f" <= 11)%nat
  /\ Str.all Char.is_hex "00aB9f" = true
  /\ NewOUI asciiOnly "00aB9f" " Acme " "Acme Inc"
     = Returned ({| OUI := "00aB9f"; VendorName := "Acme";
                    VendorAlternateName := "Acme Inc" |}, None).
Proof.
  assert (Hlen : (1 <= String.length "00aB9f" <= 11)%nat) by (simpl; lia).
  split; [exact Hlen|]. split; [reflexivity|].
  exact (NewOUI_accepts_hex_digits asciiOnly "00aB9f" " Acme " "Acme Inc"
           Hlen eq_refl).
Defined.

(** X2. [NewOUI] ends the process with status 1, through [log.Fatal],
    for the empty prefix and for every prefix with a byte that is
    neither a hexadecimal digit nor a sign: it never returns its error
    value. *)
Theorem NewOUI_exits_on_non_hex
    (U : Unicode) (oui vendorName vendorAlternateName : string) :
  oui = "" \/ Str.all (fun c => Char.is_hex c || isSign c) oui = false ->
  NewOUI U oui vendorName vendorAlternateName = Exited 1.
Proof.
  intros H. unfold NewOUI.
  pose proof (ParseInt_non_hex oui H) as Hp.
  destruct (strconv.ParseInt oui 16 48) as [v [e|]]; [done|].
  by destruct Hp.
Qed.

Lemma NewOUI_exits_on_non_hex_witness :
  ("AB CD1" = "" \/ Str.all (fun c => Char.is_hex c || isSign c) "AB CD1" = false)
  /\ NewOUI asciiOnly "AB CD1" "Acme" "Acme Inc" = Exited 1.
Proof.
  assert (H : "AB CD1" = ""
              \/ Str.all (fun c => Char.is_hex c || isSign c) "AB CD1" = false)
    by (right; reflexivity).
  split; [exact H|].
  exact (NewOUI_exits_on_non_hex asciiOnly "AB CD1" "Acme" "Acme Inc" H).
Defined.

(** X3. The validation of [NewOUI] is that of a signed number: a sign
    followed by one to eleven hexadecimal digits passes, and the sign
    stays in the stored prefix. *)
Theorem NewOUI_accepts_signed_prefix
    (U : Unicode) (c : ascii) (digits vendorName vendorAlternateName : string) :
  isSign c = true ->
  (1 <= String.length digits <= 11)%nat ->
  Str.all Char.is_hex digits = true ->
  NewOUI U (String c digits) vendorName vendorAlternateName
  = Returned ({| OUI := String c digits;
                 VendorName := strings.TrimSpace U vendorName;
                 VendorAlternateName := strings.TrimSpace U vendorAlternateName |},
              None).
Proof.
  intros Hc Hlen Hall. unfold NewOUI.
  pose proof (ParseInt_signed_hex c digits Hc Hlen Hall) as Hp.
  destruct (strconv.ParseInt (String c digits) 16 48) as [v e].
  simpl in Hp. by subst e.
Qed.

Lemma NewOUI_accepts_signed_prefix_witness :
  isSign "-" = true
  /\ (1 <= String.length "FFFFF" <= 11)%nat
  /\ Str.all Char.is_hex "FFFFF" = true
  /\ NewOUI asciiOnly "-FFFFF" "Acme" "Acme Inc"
     = Returned ({| OUI := "-FFFFF"; VendorName := "Acme";
                    VendorAlternateName := "Acme Inc" |}, None).
Proof.
  assert (Hlen : (1 <= String.length "FFFFF" <= 11)%nat) by (simpl; lia).
  split; [reflexivity|]. split; [exact Hlen|]. split; [reflexivity|].
  exact (NewOUI_accepts_signed_prefix asciiOnly "-" "FFFFF" "Acme" "Acme Inc"
           eq_refl Hlen eq_refl).
Defined.

(** ** [NewOUI]: the trimmed names *)

Lemma rev_app_spec s1 : forall s2,
  String.rev_app s1 s2 = String.rev s1 +:+ s2.
Proof.
  unfold String.rev. induction s1 as [|c s1 IH]; intros s2; [done|].
  simpl. rewrite (IH (String c s2)), (IH (String c "")).
  by rewrite string_app_assoc.
Qed.

Lemma string_rev_cons c s : String.rev (String c s) = String.rev s +:+ String c "".
Proof. unfold String.rev at 1. simpl. apply rev_app_spec. Qed.

Lemma string_rev_app s1 s2 : String.rev (s1 +:+ s2) = String.rev s2 +:+ String.rev s1.
Proof.
  induction s1 as [|c s1 IH]; [by rewrite string_app_nil_r|].
  rewrite string_app_cons, !string_rev_cons, IH. by rewrite string_app_assoc.
Qed.

Lemma string_rev_involutive s : String.rev (String.rev s) = s.
Proof.
  induction s as [|c s IH]; [done|]. rewrite string_rev_cons, string_rev_app, IH. done.
Qed.

Lemma string_all_rev p s : Str.all p (String.rev s) = Str.all p s.
Proof.
  induction s as [|c s IH]; [done|]. rewrite string_rev_cons, string_all_app, IH. simpl.
  rewrite andb_true_r. apply andb_comm.
Qed.

Lemma firstByte_rev s : firstByte (String.rev s) = lastByte s.
Proof.
  induction s as [|c s IH]; [done|]. rewrite string_rev_cons.
  destruct s as [|b s]; [done|].
  change (lastByte (String c (String b s))) with (lastByte (String b s)).
  rewrite <- IH. rewrite (string_rev_cons b s). by destruct (String.rev s).
Qed.

Lemma skipSpace_ascii s :
  Str.all Char.is_ascii s = true ->
  exists pre r,
    strings.skipSpace s = (r, false)
    /\ s = pre +:+ r
    /\ Str.all strings.asciiSpace pre = true
    /\ (forall c, firstByte r = Some c -> strings.asciiSpace c = false).
Proof.
  induction s as [|c s IH]; intros Hs.
  - by exists "", "".
  - simpl in Hs. apply andb_prop in Hs as [Hc Hs]. simpl. rewrite Hc. simpl.
    destruct (strings.asciiSpace c) eqn:Hsp.
    + destruct (IH Hs) as (pre & r & -> & -> & Hpre & Hr).
      exists (String c pre), r. repeat split; try done. simpl. by rewrite Hsp.
    + exists "", (String c s). repeat split; try done.
      simpl. by intros ? [= <-].
Qed.

(** On ASCII strings [TrimSpace] takes the white space off the two
    ends. *)
Lemma TrimSpace_ascii (U : Unicode) s :
  Str.all Char.is_ascii s = true -> trimmedOf s (strings.TrimSpace U s).
Proof.
  intros Hs. unfold strings.TrimSpace.
  destruct (skipSpace_ascii s Hs) as (pre & r & -> & -> & Hpre & Hr).
  rewrite string_all_app in Hs. apply andb_prop in Hs as [_ Hrs].
  destruct (skipSpace_ascii (String.rev r)) as (pre2 & r2 & -> & Hrev & Hpre2 & Hr2);
    [by rewrite string_all_rev|].
  assert (Hsplit : r = String.rev r2 +:+ String.rev pre2).
  { by rewrite <- string_rev_app, <- Hrev, string_rev_involutive. }
  split; [|split].
  - exists pre, (String.rev pre2). split; [by rewrite <- Hsplit|].
    split; [done|]. by rewrite string_all_rev.
  - intros c Hc. apply Hr. rewrite Hsplit.
    destruct (String.rev r2); [discriminate Hc|]. exact Hc.
  - intros c Hc. apply Hr2. by rewrite <- (string_rev_involutive r2), firstByte_rev.
Qed.

(** X4. The names of the entry [NewOUI] returns are the names given
    without the white space at their two ends, for names of ASCII
    bytes: what is left begins and ends with a byte that is no white
    space, and the white space inside a name is kept. *)
Theorem NewOUI_trims_names
    (U : Unicode) (oui vendorName vendorAlternateName : string)
    (m : OUIData) (e : option error) :
  Str.all Char.is_ascii vendorName = true ->
  Str.all Char.is_ascii vendorAlternateName = true ->
  NewOUI U oui vendorName vendorAlternateName = Returned (m, e) ->
  e = None /\ OUI m = oui
  /\ trimmedOf vendorName (VendorName m)
  /\ trimmedOf vendorAlternateName (VendorAlternateName m).
Proof.
  intros Hv Ha. unfold NewOUI.
  destruct (strconv.ParseInt oui 16 48) as [v [err|]]; [done|].
  intros [= <- <-]. simpl. split; [done|]. split; [done|].
  split; by apply TrimSpace_ascii.
Qed.

Lemma NewOUI_trims_names_witness :
  let m := {| OUI := "ACDE48"; VendorName := "Private";
              VendorAlternateName := "Private Ltd" |} in
  Str.all Char.is_ascii "  Private " = true
  /\ Str.all Char.is_ascii " Private Ltd" = true
  /\ NewOUI asciiOnly "ACDE48" "  Private " " Private Ltd" = Returned (m, None)
  /\ trimmedOf "  Private " (VendorName m)
  /\ trimmedOf " Private Ltd" (VendorAlternateName m).
Proof.
  intros m. do 3 (split; [reflexivity|]).
  exact (proj2 (proj2 (NewOUI_trims_names asciiOnly "ACDE48" "  Private "
                         " Private Ltd" m None eq_refl eq_refl eq_refl))).
Defined.

(** ** The loader: what it leaves in memory *)

Lemma sample_is_loaded : loaded asciiOnly sampleFiles sampleMemory.
Proof. eexists. reflexivity. Defined.

Lemma sample_memory :
  heap sampleMemory
  = [ {| OUI := "ACDE48"; VendorName := "Private"; VendorAlternateName := "Private" |};
      {| OUI := "AABBCC"; VendorName := "One"; VendorAlternateName := "One" |};
      {| OUI := "aabbcc"; VendorName := "Low"; VendorAlternateName := "Low" |};
      {| OUI := "AABBCC"; VendorName := "Two"; VendorAlternateName := "Two" |} ]
  /\ allOUIs sampleMemory = [0; 1; 2; 3]%nat.
Proof. by vm_compute. Qed.

Lemma ParseInt_hex_value s :
  (1 <= String.length s <= 11)%nat ->
  Str.all Char.is_hex s = true ->
  exists v, strconv.ParseInt s 16 48 = (v, None) /\ 0 <= v < 16 ^ Str.len s.
Proof.
  intros Hlen Hall.
  destruct s as [|c0 s1]; [simpl in Hlen; lia|].
  assert (Hc0 : Char.is_hex c0 = true)
    by (simpl in Hall; by apply andb_prop in Hall as [? _]).
  destruct (hex_no_sign c0 Hc0) as [Hplus Hminus].
  assert (H16 : 16 ^ Str.len (String c0 s1) <= 16 ^ 11).
  { apply Z.pow_le_mono_r; unfold Str.len; lia. }
  change (16 ^ 11) with 17592186044416 in H16.
  destruct (digits_hex (String c0 s1) 0 Hall) as (v & Hv & Hrange); [lia | |].
  { change (2 ^ 48) with 281474976710656. lia. }
  exists v. split; [|lia].
  unfold strconv.ParseInt. rewrite Hplus, Hminus. simpl orb. cbv iota.
  unfold strconv.ParseUint.
  change ((16 <? 2) || (16 >? 36)) with false. cbv iota.
  change (48 =? 0) with false. cbv iota.
  change ((48 <? 0) || (48 >? 64)) with false. cbv iota.
  rewrite Hv. change (2 ^ (48 - 1)) with 140737488355328.
  simpl negb. simpl andb.
  replace (v >=? 140737488355328) with false by lia. reflexivity.
Qed.

(** X5. Every entry in memory after the load has a prefix of exactly six
    hexadecimal digits, in the case the source wrote them, and the
    number [NewOUI] parsed from it is below [2^24]. *)
Theorem loaded_prefix_is_six_hex_digits
    (U : Unicode) (fs : string -> option string) (st : Memory)
    (p : ptr) (d : OUIData) :
  loaded U fs st ->
  heap st !! p = Some d ->
  String.length (OUI d) = 6%nat
  /\ Str.all Char.is_hex (OUI d) = true
  /\ exists v, strconv.ParseInt (OUI d) 16 48 = (v, None) /\ 0 <= v < 2 ^ 24.
Proof.
  intros Hl Hd. destruct (loaded_prefix U fs st p d Hl Hd) as [Hlen Hhex].
  split; [done|]. split; [done|].
  destruct (ParseInt_hex_value (OUI d)) as (v & Hv & Hrange); [lia|done|].
  exists v. split; [done|]. unfold Str.len in Hrange. rewrite Hlen in Hrange.
  exact Hrange.
Qed.

Lemma loaded_prefix_is_six_hex_digits_witness :
  let d := {| OUI := "aabbcc"; VendorName := "Low"; VendorAlternateName := "Low" |} in
  loaded asciiOnly sampleFiles sampleMemory
  /\ heap sampleMemory !! 2%nat = Some d
  /\ String.length (OUI d) = 6%nat
  /\ Str.all Char.is_hex (OUI d) = true
  /\ exists v, strconv.ParseInt (OUI d) 16 48 = (v, None) /\ 0 <= v < 2 ^ 24.
Proof.
  intros d. split; [exact sample_is_loaded|]. split; [reflexivity|].
  exact (loaded_prefix_is_six_hex_digits asciiOnly sampleFiles sampleMemory
           2%nat d sample_is_loaded eq_refl).
Defined.

(** X6. The load fails in one way only: [makeMACHashMap] panics exactly
    when the file cannot be read, and returns in every other case; it
    never ends the process through [log.Fatal]. *)
Theorem load_fails_only_on_unreadable_file
    (U : Unicode) (fs : string -> option string) (fileName : string)
    (st : Memory) :
  (makeMACHashMap U fs fileName st = Panicked <-> fs fileName = None)
  /\ ((exists r, makeMACHashMap U fs fileName st = Returned r)
      <-> is_Some (fs fileName))
  /\ forall status, makeMACHashMap U fs fileName st ≠ Exited status.
Proof.
  destruct (fs fileName) as [text|] eqn:Hfs.
  - rewrite (makeMACHashMap_spec U fs fileName text st Hfs).
    split; [split; done|]. split; [|done]. split; [by eexists|by eexists].
  - unfold makeMACHashMap. rewrite Hfs.
    split; [done|]. split; [|done]. split; [by intros [r Hr]|by intros [x Hx]].
Qed.

(** X7. After the load the slice [allOUIs] holds each cell of the heap
    once: the addresses are distinct, each one is the address of a
    cell, and there are as many as cells. *)
Theorem loaded_list_has_each_cell_once
    (U : Unicode) (fs : string -> option string) (st : Memory) :
  loaded U fs st ->
  NoDup (ListOUIs st) /\ wellFormed st
  /\ length (ListOUIs st) = length (heap st)
  /\ forall p, is_Some (heap st !! p) -> p ∈ ListOUIs st.
Proof.
  intros (text & _ & Hheap & Hall)%loaded_inv.
  unfold ListOUIs, wellFormed. rewrite Hall, Hheap, length_fmap.
  split; [apply NoDup_seq|]. split; [|split].
  - apply Forall_forall. intros p Hp%elem_of_seq.
    apply lookup_lt_is_Some. rewrite length_fmap. lia.
  - by rewrite length_seq.
  - intros p Hp%lookup_lt_is_Some. rewrite length_fmap in Hp.
    apply elem_of_seq. lia.
Qed.

Lemma loaded_list_has_each_cell_once_witness :
  loaded asciiOnly sampleFiles sampleMemory
  /\ NoDup (ListOUIs sampleMemory) /\ wellFormed sampleMemory
  /\ length (ListOUIs sampleMemory) = length (heap sampleMemory)
  /\ forall p, is_Some (heap sampleMemory !! p) -> p ∈ ListOUIs sampleMemory.
Proof.
  split; [exact sample_is_loaded|].
  exact (loaded_list_has_each_cell_once asciiOnly sampleFiles sampleMemory
           sample_is_loaded).
Defined.

(** ** The loader: the map it returns *)

Lemma mapOf_lookup_Some es : forall base (results : gmap string nat) k p,
  mapOf es base results !! k = Some p ->
  results !! k = Some p
  \/ exists i e, es !! i = Some e /\ OUI e = k /\ p = (base + i)%nat.
Proof.
  induction es as [|e0 es IH]; intros base results k p Hk; [by left|].
  simpl in Hk. apply IH in Hk as [Hk|(i & e & Hi & He & ->)].
  - destruct (decide (OUI e0 = k)) as [<-|Hne].
    + rewrite lookup_insert_eq in Hk. injection Hk as <-.
      right. exists 0%nat, e0. repeat split; try done; lia.
    + rewrite lookup_insert_ne in Hk by done. by left.
  - right. exists (S i), e. repeat split; try done; lia.
Qed.

Lemma mapOf_keeps_keys es : forall base (results : gmap string nat) k,
  is_Some (results !! k) -> is_Some (mapOf es base results !! k).
Proof.
  induction es as [|e0 es IH]; intros base results k Hk; [done|].
  simpl. apply IH. destruct (decide (OUI e0 = k)) as [<-|Hne].
  - rewrite lookup_insert_eq. by eexists.
  - by rewrite lookup_insert_ne.
Qed.

Lemma mapOf_has_prefixes es : forall base (results : gmap string nat) e,
  e ∈ es -> is_Some (mapOf es base results !! OUI e).
Proof.
  induction es as [|e0 es IH]; intros base results e He; [by apply elem_of_nil in He|].
  apply elem_of_cons in He as [->|He]; simpl.
  - apply mapOf_keeps_keys. rewrite lookup_insert_eq. by eexists.
  - by apply IH.
Qed.

Lemma map_points_to_loaded_entries_aux
    (U : Unicode) (fs : string -> option string) (fileName : string)
    (st st' : Memory) (results : gmap string ptr) (k : string) (p : ptr) :
  makeMACHashMap U fs fileName st = Returned (results, st') ->
  results !! k = Some p ->
  (length (heap st) <= p)%nat
  /\ p ∈ allOUIs st'
  /\ exists d, heap st' !! p = Some d /\ OUI d = k.
Proof.
  intros Hload Hk.
  destruct (fs fileName) as [text|] eqn:Hfs;
    [|unfold makeMACHashMap in Hload; by rewrite Hfs in Hload].
  rewrite (makeMACHashMap_spec U fs fileName text st Hfs) in Hload.
  injection Hload as <- <-.
  apply mapOf_lookup_Some in Hk as [Hk|(i & e & Hi & He & ->)]; [done|].
  simpl. split; [lia|]. split.
  - apply elem_of_app. right. apply elem_of_seq.
    apply lookup_lt_Some in Hi. rewrite length_fmap in Hi. lia.
  - exists e. split; [|done]. by rewrite lookup_app_r, Nat.add_comm, Nat.add_sub by lia.
Qed.

(** X8. The map [makeMACHashMap] returns is a view of the entries it has
    just stored: a key of the map is the prefix of the cell its address
    points to, that address is in [allOUIs], and the cell is one the
    call has allocated. *)
Theorem map_points_to_loaded_entries
    (U : Unicode) (fs : string -> option string) (fileName : string)
    (st st' : Memory) (results : gmap string ptr) (k : string) (p : ptr) :
  makeMACHashMap U fs fileName st = Returned (results, st') ->
  results !! k = Some p ->
  (length (heap st) <= p)%nat
  /\ p ∈ allOUIs st'
  /\ exists d, heap st' !! p = Some d /\ OUI d = k.
Proof. apply map_points_to_loaded_entries_aux. Qed.

Lemma map_points_to_loaded_entries_witness :
  exists results,
    makeMACHashMap asciiOnly sampleFiles "oui.txt" start
    = Returned (results, sampleMemory)
    /\ results !! "AABBCC" = Some 3%nat
    /\ (length (heap start) <= 3)%nat
    /\ 3%nat ∈ allOUIs sampleMemory
    /\ exists d, heap sampleMemory !! 3%nat = Some d /\ OUI d = "AABBCC".
Proof.
  eexists. split; [reflexivity|]. split; [reflexivity|].
  eapply (map_points_to_loaded_entries asciiOnly sampleFiles "oui.txt" start
            sampleMemory _ "AABBCC" 3%nat); reflexivity.
Defined.

(** X9. The map has a key for the prefix of every entry the call
    stored, and for nothing else: a string is a key exactly when it is
    the prefix of one of the new cells. *)
Theorem map_keys_are_loaded_prefixes
    (U : Unicode) (fs : string -> option string) (fileName : string)
    (st st' : Memory) (results : gmap string ptr) (k : string) :
  makeMACHashMap U fs fileName st = Returned (results, st') ->
  is_Some (results !! k)
  <-> exists p d, (length (heap st) <= p)%nat
                  /\ heap st' !! p = Some d /\ OUI d = k.
Proof.
  intros Hload. split.
  - intros [p Hp].
    destruct (map_points_to_loaded_entries_aux U fs fileName st st' results k p
                Hload Hp) as (Hfresh & _ & d & Hd & Hk).
    by exists p, d.
  - intros (p & d & Hfresh & Hd & <-).
    destruct (fs fileName) as [text|] eqn:Hfs;
      [|unfold makeMACHashMap in Hload; by rewrite Hfs in Hload].
    rewrite (makeMACHashMap_spec U fs fileName text st Hfs) in Hload.
    injection Hload as <- <-. simpl in Hd.
    rewrite lookup_app_r in Hd by done.
    apply mapOf_has_prefixes. by apply list_elem_of_lookup_2 in Hd.
Qed.

Lemma map_keys_are_loaded_prefixes_witness :
  exists results,
    makeMACHashMap asciiOnly sampleFiles "oui.txt" start
    = Returned (results, sampleMemory)
    /\ (is_Some (results !! "aabbcc")
        <-> exists p d, (length (heap start) <= p)%nat
                        /\ heap sampleMemory !! p = Some d /\ OUI d = "aabbcc").
Proof.
  eexists. split; [reflexivity|].
  eapply (map_keys_are_loaded_prefixes asciiOnly sampleFiles "oui.txt" start
            sampleMemory _ "aabbcc"); reflexivity.
Defined.

(** X10. Under each prefix the map holds the address of the entry
    loaded last with that prefix, whatever the case of the prefix: a
    later record replaces an earlier one in the map, while both stay in
    [allOUIs]. *)
Theorem map_holds_last_loaded
    (U : Unicode) (fs : string -> option string) (fileName : string)
    (st : Memory) (results : gmap string ptr) (j : nat) (e : OUIData) :
  makeMACHashMap U fs fileName start = Returned (results, st) ->
  heap st !! j = Some e ->
  (forall k f, (j < k)%nat -> heap st !! k = Some f -> OUI f ≠ OUI e) ->
  results !! OUI e = Some j.
Proof.
  intros Hload Hj Hlast.
  destruct (fs fileName) as [text|] eqn:Hfs;
    [|unfold makeMACHashMap in Hload; by rewrite Hfs in Hload].
  rewrite (makeMACHashMap_spec U fs fileName text start Hfs) in Hload.
  injection Hload as <- <-. simpl in *.
  by rewrite (mapOf_last _ 0 ∅ j e Hj Hlast).
Qed.

Lemma map_holds_last_loaded_witness :
  let e := {| OUI := "AABBCC"; VendorName := "Two"; VendorAlternateName := "Two" |} in
  exists results,
    makeMACHashMap asciiOnly sampleFiles "oui.txt" start
    = Returned (results, sampleMemory)
    /\ heap sampleMemory !! 3%nat = Some e
    /\ (forall k f, (3 < k)%nat -> heap sampleMemory !! k = Some f -> OUI f ≠ OUI e)
    /\ results !! OUI e = Some 3%nat.
Proof.
  intros e.
  assert (Hlast : forall k f, (3 < k)%nat -> heap sampleMemory !! k = Some f ->
                              OUI f ≠ OUI e).
  { intros k f Hk Hf. apply lookup_lt_Some in Hf.
    change (length (heap sampleMemory)) with 4%nat in Hf. lia. }
  eexists. split; [reflexivity|]. split; [reflexivity|]. split; [exact Hlast|].
  eapply (map_holds_last_loaded asciiOnly sampleFiles "oui.txt" sampleMemory _
            3%nat e); [reflexivity|reflexivity|exact Hlast].
Defined.

(** ** The loader: a second call *)

Lemma GetOUI_range_extend (U : Unicode) st st' oui ps : forall qs p,
  (forall q d, heap st !! q = Some d -> heap st' !! q = Some d) ->
  GetOUI_range U st ps oui = Returned (Some p) ->
  GetOUI_range U st' (ps ++ qs) oui = Returned (Some p).
Proof.
  intros qs p Hext. induction ps as [|o ps IH]; [done|].
  simpl. unfold deref.
  destruct (heap st !! o) as [d|] eqn:Hd; [|done].
  rewrite (Hext o d Hd). simpl.
  destruct (String.eqb (OUI d) (strings.ToUpper U oui)); [done|]. exact IH.
Qed.

(** X11. [makeMACHashMap] adds to the registry and takes nothing away:
    called on a memory that holds entries already, it leaves every cell
    and the front of [allOUIs] as they were and puts the new entries
    behind them, so a lookup that found an entry before the call finds
    the same entry after it. *)
Theorem second_load_keeps_first_entries
    (U : Unicode) (fs : string -> option string) (fileName : string)
    (st st' : Memory) (results : gmap string ptr) :
  makeMACHashMap U fs fileName st = Returned (results, st') ->
  (exists new, allOUIs st' = allOUIs st ++ new
               /\ length (heap st') = (length (heap st) + length new)%nat)
  /\ (forall q d, heap st !! q = Some d -> heap st' !! q = Some d)
  /\ (forall oui p, GetOUI U st oui = Returned (Some p) ->
                    GetOUI U st' oui = Returned (Some p)).
Proof.
  intros Hload.
  destruct (fs fileName) as [text|] eqn:Hfs;
    [|unfold makeMACHashMap in Hload; by rewrite Hfs in Hload].
  rewrite (makeMACHashMap_spec U fs fileName text st Hfs) in Hload.
  injection Hload as _ <-. simpl.
  assert (Hext : forall q d, heap st !! q = Some d ->
                   (heap st ++ (entryOf U <$> records text)) !! q = Some d).
  { intros q d Hq. by apply lookup_app_l_Some. }
  split; [|split; [exact Hext|]].
  - eexists. split; [reflexivity|].
    by rewrite length_app, length_seq, length_fmap.
  - intros oui p Hget. unfold GetOUI in *. simpl.
    by apply (GetOUI_range_extend U st).
Qed.

Lemma second_load_keeps_first_entries_witness :
  let fs := oneFile "more.txt" (upperRecord "Later") in
  exists results st',
    makeMACHashMap asciiOnly fs "more.txt" sampleMemory = Returned (results, st')
    /\ GetOUI asciiOnly sampleMemory "aabbcc" = Returned (Some 1%nat)
    /\ GetOUI asciiOnly st' "aabbcc" = Returned (Some 1%nat)
    /\ results !! "AABBCC" = Some 4%nat.
Proof.
  intros fs. eexists _, _. split; [reflexivity|]. split; [reflexivity|].
  split; [|reflexivity].
  eapply (second_load_keeps_first_entries asciiOnly fs "more.txt" sampleMemory);
    reflexivity.
Defined.

(** ** The records in the text *)

Section MatchesInText.

Import regexp.

Ltac split_matches H :=
  simpl in H; repeat case_match;
  rewrite ?elem_of_cons, ?elem_of_nil in H;
  repeat match type of H with
         | False => destruct H
         | _ \/ _ => destruct H as [H|H]
         | (_, _) = (_, _) => injection H as -> ->
         end.

Lemma star_rest p s : forall before w b s',
  (w, (b, s')) ∈ star p before s -> s = w +:+ s'.
Proof.
  induction s as [|c s IH]; intros before w b s' H; simpl in H.
  - apply list_elem_of_singleton in H. by injection H as -> _ ->.
  - destruct (p c).
    + apply elem_of_app in H as [H|H].
      * apply list_elem_of_fmap in H as ([w1 [b1 s1]] & Heq & H).
        injection Heq as -> -> ->. rewrite string_app_cons.
        f_equal. by eapply IH.
      * apply list_elem_of_singleton in H. by injection H as -> _ ->.
    + apply list_elem_of_singleton in H. by injection H as -> _ ->.
Qed.

(** A match is read off the front of the text that is left. *)
Lemma exec_rest r : forall t w t',
  (w, t') ∈ exec r t -> rest t = w +:+ rest t'.
Proof.
  induction r as [|p|r1 IH1 r2 IH2|n r IH|p|i name r IH| |]; intros t w t' H.
  - simpl in H. apply list_elem_of_singleton in H. by injection H as -> ->.
  - simpl in H. destruct (rest t) as [|c s]; [by apply elem_of_nil in H|].
    destruct (p c); [|by apply elem_of_nil in H].
    apply list_elem_of_singleton in H. by injection H as -> ->.
  - apply exec_Seq in H as (w1 & t1 & w2 & H1 & H2 & ->).
    rewrite (IH1 _ _ _ H1), (IH2 _ _ _ H2). by rewrite string_app_assoc.
  - revert t w t' H. induction n as [|n IHn]; intros t w t' H.
    + by apply exec_Times_O in H as [-> ->].
    + apply exec_Times_S in H as (w1 & t1 & w2 & H1 & H2 & ->).
      rewrite (IH _ _ _ H1), (IHn _ _ _ H2). by rewrite string_app_assoc.
  - simpl in H. apply list_elem_of_fmap in H as ([w1 [b s]] & Heq & H).
    injection Heq as -> ->. simpl. by eapply star_rest.
  - apply exec_Group in H as (t1 & H1 & ->). simpl. eauto.
  - simpl in H. destruct (prev t) as [c|].
    + destruct (Ascii.eqb c newline); [|by apply elem_of_nil in H].
      apply list_elem_of_singleton in H. by injection H as -> ->.
    + apply list_elem_of_singleton in H. by injection H as -> ->.
  - simpl in H. destruct (rest t) as [|c s] eqn:Hr.
    + apply list_elem_of_singleton in H. injection H as -> ->. by rewrite Hr.
    + destruct (Ascii.eqb c newline); [|by apply elem_of_nil in H].
      apply list_elem_of_singleton in H. injection H as -> ->. by rewrite Hr.
Qed.

Lemma exec_BeginLine t w t' :
  (w, t') ∈ exec BeginLine t ->
  t' = t /\ (prev t = None \/ prev t = Some newline).
Proof.
  simpl. destruct (prev t) as [c|].
  - destruct (Ascii.eqb_spec c newline) as [->|]; [|by intros ?%elem_of_nil].
    intros H%list_elem_of_singleton. injection H as _ ->. split; [done|by right].
  - intros H%list_elem_of_singleton. injection H as _ ->. split; [done|by left].
Qed.

Lemma exec_EndLine t w t' :
  (w, t') ∈ exec EndLine t ->
  t' = t /\ (firstByte (rest t) = None \/ firstByte (rest t) = Some newline).
Proof.
  simpl. destruct (rest t) as [|c s].
  - intros H%list_elem_of_singleton. injection H as _ ->. split; [done|by left].
  - destruct (Ascii.eqb_spec c newline) as [->|]; [|by intros ?%elem_of_nil].
    intros H%list_elem_of_singleton. injection H as _ ->. split; [done|by right].
Qed.

(** The whole match is the front of the text at the position. *)
Lemma matchAt_whole r before s m :
  matchAt r before s = Some m ->
  exists w t,
    (w, t) ∈ exec r (Thread before s (replicate (S (NumSubexp r)) EmptyString))
    /\ whole m = w /\ s = w +:+ rest t.
Proof.
  unfold matchAt.
  destruct (exec r _) as [|[w t] l] eqn:E; [done|]. intros [= <-].
  assert (H : (w, t) ∈ exec r
                (Thread before s (replicate (S (NumSubexp r)) EmptyString)))
    by (rewrite E; left).
  exists w, t. split; [left|]. split.
  - pose proof (exec_caps_length _ _ _ _ H) as Hlen.
    cbn [caps] in Hlen. rewrite length_replicate in Hlen.
    unfold whole. rewrite list_lookup_insert_eq by lia. done.
  - by apply exec_rest in H.
Qed.

(** A record begins at the beginning of a line and ends at the end of a
    line. *)
Lemma ouiExp_anchors t0 w t :
  (w, t) ∈ exec Pattern.ouiExp t0 ->
  (prev t0 = None \/ prev t0 = Some newline)
  /\ (firstByte (rest t) = None \/ firstByte (rest t) = Some newline).
Proof.
  intros H. unfold Pattern.ouiExp in H.
  apply exec_Seq in H as (? & ? & ? & H0 & H & ->).
  apply exec_BeginLine in H0 as [-> Hbegin]. split; [exact Hbegin|].
  do 11 (apply exec_Seq in H as (? & ? & ? & _ & H & ->)).
  by apply exec_EndLine in H as [-> Hend].
Qed.

Lemma allMatches_at r s : forall pre skip lastEnd o m,
  (o, m) ∈ allMatches r skip (String.length pre) lastEnd (lastByte pre) s ->
  exists pre' s',
    pre +:+ s = pre' +:+ s' /\ String.length pre' = o
    /\ matchAt r (lastByte pre') s' = Some m.
Proof.
  induction s as [|c s IH]; intros pre skip lastEnd o m H.
  - destruct skip; split_matches H; by exists pre, "".
  - assert (Hstep : forall k e,
              (o, m) ∈ allMatches r k (S (String.length pre)) e (Some c) s ->
              exists pre' s',
                pre +:+ String c s = pre' +:+ s' /\ String.length pre' = o
                /\ matchAt r (lastByte pre') s' = Some m).
    { intros k e Hk.
      destruct (IH (pre +:+ String c "") k e o m) as (pre' & s' & Heq & Hlen & Hm).
      - rewrite string_length_app, lastByte_snoc. simpl.
        by replace (String.length pre + 1)%nat with (S (String.length pre)) by lia.
      - exists pre', s'. split; [|done]. rewrite <- Heq.
        by rewrite string_app_assoc. }
    destruct skip; split_matches H; eauto; by exists pre, (String c s).
Qed.

(** The matches do not overlap: each one starts at or after the end of
    the one before. *)
Lemma allMatches_from_skip r s : forall skip pos lastEnd before o m,
  (o, m) ∈ allMatches r skip pos lastEnd before s -> (pos + skip <= o)%nat.
Proof.
  induction s as [|c s IH]; intros [|k] pos lastEnd before o m H;
    split_matches H; try lia; apply IH in H; lia.
Qed.

Lemma allMatches_apart r s : forall skip pos lastEnd before,
  StronglySorted
    (fun a b => (a.1 + String.length (whole a.2) <= b.1)%nat)
    (allMatches r skip pos lastEnd before s).
Proof.
  induction s as [|c s IH]; intros [|k] pos lastEnd before; simpl;
    repeat case_match; repeat constructor; eauto.
  all: apply Forall_forall; intros [o m] Hin; apply allMatches_from_skip in Hin;
    simpl; lia.
Qed.

End MatchesInText.

(** X12. Each record the loader reads is a piece of the source text, at
    the offset where the search found it: it begins at the beginning of
    a line (the start of the text or after a line feed) and ends at the
    end of a line (the end of the text or before a line feed). *)
Theorem record_is_lines_of_the_source (text : string) (o : nat) (m : list string) :
  (o, m) ∈ regexp.FindAllStringSubmatchIndex Pattern.ouiExp text ->
  exists pre suf,
    text = pre +:+ regexp.whole m +:+ suf
    /\ String.length pre = o
    /\ (lastByte pre = None \/ lastByte pre = Some regexp.newline)
    /\ (firstByte suf = None \/ firstByte suf = Some regexp.newline).
Proof.
  intros H. unfold regexp.FindAllStringSubmatchIndex in H.
  destruct (allMatches_at Pattern.ouiExp text "" 0 None o m H)
    as (pre & s & Heq & Hlen & Hm).
  destruct (matchAt_whole _ _ _ _ Hm) as (w & t & Hexec & Hw & Hs).
  destruct (ouiExp_anchors _ _ _ Hexec) as [Hbegin Hend].
  exists pre, (regexp.rest t). rewrite Hw. split; [|done].
  change ("" +:+ text) with text in Heq. by rewrite Heq, Hs.
Qed.

Lemma record_is_lines_of_the_source_witness :
  let m := [ "AA-BB-CC   (hex)  One" +:+ lf +:+ "AABBCC     (base 16)  One";
             "AA-BB-CC"; "-CC"; "One"; "AABBCC"; "One" ] in
  (56%nat, m) ∈ regexp.FindAllStringSubmatchIndex Pattern.ouiExp sampleText
  /\ exists pre suf,
       sampleText = pre +:+ regexp.whole m +:+ suf
       /\ String.length pre = 56%nat
       /\ (lastByte pre = None \/ lastByte pre = Some regexp.newline)
       /\ (firstByte suf = None \/ firstByte suf = Some regexp.newline).
Proof.
  intros m.
  assert (H : (56%nat, m)
              ∈ regexp.FindAllStringSubmatchIndex Pattern.ouiExp sampleText)
    by (apply (list_elem_of_lookup_2 _ 1%nat); reflexivity).
  split; [exact H|].
  exact (record_is_lines_of_the_source sampleText 56%nat m H).
Defined.

(** X13. The records the loader reads do not overlap: in the list of
    matches each record starts at or after the end of every record
    before it, so no byte of the source belongs to two entries. *)
Theorem records_do_not_overlap (text : string) :
  StronglySorted
    (fun a b => (a.1 + String.length (regexp.whole a.2) <= b.1)%nat)
    (regexp.FindAllStringSubmatchIndex Pattern.ouiExp text).
Proof. apply allMatches_apart. Qed.

(** ** The fields of a record *)

Section Fields.

Import regexp Pattern.

Lemma star_all p s : forall before w e,
  (w, e) ∈ star p before s -> Str.all p w = true.
Proof.
  induction s as [|c s IH]; intros before w e H; simpl in H.
  - apply list_elem_of_singleton in H. by injection H as -> _.
  - destruct (p c) eqn:Hp.
    + apply elem_of_app in H as [H|H].
      * apply list_elem_of_fmap in H as ([w1 e1] & Heq & H).
        injection Heq as -> _. simpl. rewrite Hp. by eapply IH.
      * apply list_elem_of_singleton in H. by injection H as -> _.
    + apply list_elem_of_singleton in H. by injection H as -> _.
Qed.

Lemma exec_Star_all p t w t' :
  (w, t') ∈ exec (Star p) t -> Str.all p w = true.
Proof.
  simpl. intros H. apply list_elem_of_fmap in H as ([w1 [b s]] & Heq & H).
  injection Heq as -> _. by eapply star_all.
Qed.

(** The groups of the two names hold no line feed. *)
Lemma ouiExp_names before s m :
  matchAt ouiExp before s = Some m ->
  Str.all dot (field m 3) = true /\ Str.all dot (field m 5) = true.
Proof.
  unfold matchAt.
  destruct (exec ouiExp _) as [|[w t] l] eqn:E; [done|].
  intros [= <-].
  assert (H : (w, t) ∈ exec ouiExp
                (Thread before s (replicate (S (NumSubexp ouiExp)) EmptyString)))
    by (rewrite E; left).
  clear E l. pose proof (exec_caps_length _ _ _ _ H) as Hlen.
  cbn [caps] in Hlen. rewrite length_replicate in Hlen.
  destruct ouiExp_groups as (_ & _ & _ & Hn). rewrite Hn in Hlen. clear Hn.
  unfold field. rewrite !list_lookup_insert_ne by done.
  unfold ouiExp in H.
  do 5 (apply exec_Seq in H as (? & ? & ? & _ & H & ->)).
  apply exec_Seq in H as (w3 & t3 & ? & H3 & H & ->).
  apply exec_Group in H3 as (t3' & H3 & ->).
  apply exec_Star_all in H3.
  assert (Hlen3 := H). apply exec_caps_length in Hlen3. cbn [caps] in Hlen3.
  rewrite length_insert in Hlen3.
  assert (H' := H). apply (exec_caps_other 3) in H'; [|reflexivity].
  cbn [caps] in H'.
  assert (Hb : (3 < length (caps t3'))%nat) by (rewrite <- Hlen3, Hlen; lia).
  rewrite (list_lookup_insert_eq _ _ _ Hb) in H'.
  rewrite H'. split; [exact H3|]. clear H' H3.
  do 5 (apply exec_Seq in H as (? & ? & ? & _ & H & ->)).
  apply exec_Seq in H as (w5 & t5 & ? & H5 & H & ->).
  apply exec_Group in H5 as (t5' & H5 & ->).
  pose proof (exec_caps_length _ _ _ _ H5) as Hlen5.
  apply exec_Star_all in H5.
  apply exec_EndLine in H as [-> _]. cbn [caps] in *.
  rewrite length_insert in Hlen.
  rewrite list_lookup_insert_eq by lia. exact H5.
Qed.

End Fields.

(** X14. The two name fields of a record are each taken from one line
    of the source: whatever the text, the vendor name and the alternate
    name the pattern captures hold no line feed (and the prefix is six
    hexadecimal digits). *)
Theorem record_fields_are_single_line (text : string) (m : list string) :
  m ∈ records text ->
  Str.all Pattern.dot (field m 3) = true
  /\ Str.all Pattern.dot (field m 5) = true
  /\ String.length (field m 4) = 6%nat
  /\ Str.all Char.is_hex (field m 4) = true.
Proof.
  intros Hm. unfold records, regexp.FindAllStringSubmatch in Hm.
  apply list_elem_of_fmap in Hm as ([o m'] & -> & Hm).
  apply allMatches_elem in Hm as (b & s' & Hm). simpl.
  destruct (ouiExp_names _ _ _ Hm) as [H3 H5].
  destruct (ouiExp_matchAt _ _ _ Hm) as (_ & H4 & Hhex). done.
Qed.

Lemma record_fields_are_single_line_witness :
  let m := [ "AA-BB-CC   (hex)  One" +:+ lf +:+ "AABBCC     (base 16)  One";
             "AA-BB-CC"; "-CC"; "One"; "AABBCC"; "One" ] in
  m ∈ records sampleText
  /\ Str.all Pattern.dot (field m 3) = true
  /\ Str.all Pattern.dot (field m 5) = true
  /\ String.length (field m 4) = 6%nat
  /\ Str.all Char.is_hex (field m 4) = true.
Proof.
  intros m.
  assert (H : m ∈ records sampleText)
    by (apply (list_elem_of_lookup_2 _ 1%nat); reflexivity).
  split; [exact H|].
  exact (record_fields_are_single_line sampleText m H).
Defined.

(** ** The lookup on every memory *)

Lemma GetOUI_range_found (U : Unicode) st oui ps : forall p,
  GetOUI_range U st ps oui = Returned (Some p) ->
  exists i d,
    ps !! i = Some p /\ heap st !! p = Some d
    /\ OUI d = strings.ToUpper U oui
    /\ forall j q e, (j < i)%nat -> ps !! j = Some q -> heap st !! q = Some e ->
                     OUI e ≠ strings.ToUpper U oui.
Proof.
  induction ps as [|o ps IH]; intros p H; [done|].
  simpl in H. unfold deref in H.
  destruct (heap st !! o) as [d|] eqn:Hd; [|done]. simpl in H.
  destruct (String.eqb_spec (OUI d) (strings.ToUpper U oui)) as [He|He].
  - injection H as <-. exists 0%nat, d. repeat split; try done. intros; lia.
  - destruct (IH p H) as (i & d' & Hi & Hd' & He' & Hfirst).
    exists (S i), d'. repeat split; try done.
    intros [|j] q e Hj Hq Hq'; simpl in Hq.
    + injection Hq as <-. rewrite Hd in Hq'. by injection Hq' as <-.
    + apply (Hfirst j q e); [lia|done|done].
Qed.

Lemma GetOUI_range_wf (U : Unicode) st oui ps :
  Forall (fun p => is_Some (heap st !! p)) ps ->
  (exists r, GetOUI_range U st ps oui = Returned r)
  /\ (GetOUI_range U st ps oui = Returned None
      <-> forall p d, p ∈ ps -> heap st !! p = Some d ->
                      OUI d ≠ strings.ToUpper U oui).
Proof.
  induction ps as [|o ps IH]; intros Hwf.
  - split; [by eexists|]. split; [|done]. intros _ p d Hp. by apply elem_of_nil in Hp.
  - apply Forall_cons in Hwf as [[d Hd] Hwf]. destruct (IH Hwf) as [Hret Hnone].
    simpl. unfold deref. rewrite Hd. simpl.
    destruct (String.eqb_spec (OUI d) (strings.ToUpper U oui)) as [He|He].
    + split; [by eexists|]. split; [done|].
      intros H. destruct (H o d); [by left|done|done].
    + split; [exact Hret|]. rewrite Hnone. split.
      * intros H p e [->|Hp]%elem_of_cons Hp'.
        -- rewrite Hd in Hp'. by injection Hp' as <-.
        -- by apply (H p e).
      * intros H p e Hp. apply H. by right.
Qed.

(** X15. [GetOUI] matches whole prefixes only: on every memory, the
    entry it returns is in [allOUIs], its prefix is exactly the
    upper-cased argument, and no entry before it in [allOUIs] has that
    prefix. *)
Theorem GetOUI_returns_first_exact_match
    (U : Unicode) (st : Memory) (oui : string) (p : ptr) :
  GetOUI U st oui = Returned (Some p) ->
  exists i d,
    ListOUIs st !! i = Some p /\ heap st !! p = Some d
    /\ OUI d = strings.ToUpper U oui
    /\ forall j q e, (j < i)%nat -> ListOUIs st !! j = Some q ->
                     heap st !! q = Some e -> OUI e ≠ strings.ToUpper U oui.
Proof. apply GetOUI_range_found. Qed.

Lemma GetOUI_returns_first_exact_match_witness :
  GetOUI asciiOnly sampleMemory "aabbcc" = Returned (Some 1%nat)
  /\ exists i d,
       ListOUIs sampleMemory !! i = Some 1%nat /\ heap sampleMemory !! 1%nat = Some d
       /\ OUI d = strings.ToUpper asciiOnly "aabbcc"
       /\ forall j q e, (j < i)%nat -> ListOUIs sampleMemory !! j = Some q ->
                        heap sampleMemory !! q = Some e ->
                        OUI e ≠ strings.ToUpper asciiOnly "aabbcc".
Proof.
  split; [reflexivity|].
  exact (GetOUI_returns_first_exact_match asciiOnly sampleMemory "aabbcc" 1%nat
           eq_refl).
Defined.

(** X16. On a memory whose slice holds addresses of cells (as after the
    load) [GetOUI] returns for every argument, without panic, and it
    returns nil exactly when no listed entry has the upper-cased
    argument as its prefix. *)
Theorem GetOUI_nil_iff_no_entry
    (U : Unicode) (st : Memory) (oui : string) :
  wellFormed st ->
  (exists r, GetOUI U st oui = Returned r)
  /\ (GetOUI U st oui = Returned None
      <-> forall p d, p ∈ ListOUIs st -> heap st !! p = Some d ->
                      OUI d ≠ strings.ToUpper U oui).
Proof. apply GetOUI_range_wf. Qed.

Lemma sample_wellFormed : wellFormed sampleMemory.
Proof.
  unfold wellFormed. destruct sample_memory as [Hheap ->]. rewrite Hheap.
  repeat constructor; by eexists.
Defined.

Lemma GetOUI_nil_iff_no_entry_witness :
  wellFormed sampleMemory
  /\ GetOUI asciiOnly sampleMemory "ACDE4" = Returned None
  /\ (GetOUI asciiOnly sampleMemory "ACDE4" = Returned None
      <-> forall p d, p ∈ ListOUIs sampleMemory -> heap sampleMemory !! p = Some d ->
                      OUI d ≠ strings.ToUpper asciiOnly "ACDE4").
Proof.
  split; [exact sample_wellFormed|]. split; [reflexivity|].
  exact (proj2 (GetOUI_nil_iff_no_entry asciiOnly sampleMemory "ACDE4"
                  sample_wellFormed)).
Defined.

(** X17. [GetOUI] does not tell the case of its argument: on every
    memory, two ASCII arguments that differ in the case of their
    letters only get the same answer. *)
Theorem GetOUI_ignores_case_of_argument
    (U : Unicode) (st : Memory) (a b : string) :
  Str.all Char.is_ascii a = true ->
  Str.all Char.is_ascii b = true ->
  Str.map Char.to_upper a = Str.map Char.to_upper b ->
  GetOUI U st a = GetOUI U st b.
Proof.
  intros Ha Hb Hab. apply GetOUI_range_upper.
  by rewrite !ToUpper_ascii, Hab.
Qed.

Lemma GetOUI_ignores_case_of_argument_witness :
  Str.all Char.is_ascii "acDe48" = true
  /\ Str.all Char.is_ascii "ACDE48" = true
  /\ Str.map Char.to_upper "acDe48" = Str.map Char.to_upper "ACDE48"
  /\ GetOUI asciiOnly sampleMemory "acDe48" = GetOUI asciiOnly sampleMemory "ACDE48".
Proof.
  do 3 (split; [reflexivity|]).
  exact (GetOUI_ignores_case_of_argument asciiOnly sampleMemory "acDe48" "ACDE48"
           eq_refl eq_refl eq_refl).
Defined.

(** ** The lookup of the earlier version *)

Lemma Earlier_GetOUI_range (U : Unicode) st oui ps :
  GetOUI_range U st ps oui = Earlier.GetOUI_range st ps (strings.ToUpper U oui).
Proof.
  induction ps as [|o ps IH]; [done|]. simpl. by rewrite IH.
Qed.

Lemma Earlier_GetOUI_range_seq st oui es2 : forall es1,
  heap st = es1 ++ es2 ->
  Earlier.GetOUI_range st (seq (length es1) (length es2)) oui
  = Returned ((fun x => (length es1 + x.1)%nat)
                <$> list_find (fun e => OUI e = oui) es2).
Proof.
  induction es2 as [|e es2 IH]; intros es1 Hheap; [done|].
  simpl. unfold deref. rewrite Hheap, list_lookup_middle by done. simpl.
  destruct (String.eqb_spec (OUI e) oui) as [He|He].
  - rewrite decide_True by done. simpl. do 3 f_equal. lia.
  - rewrite decide_False by done.
    specialize (IH (es1 ++ [e])). rewrite length_app in IH. simpl in IH.
    replace (length es1 + 1)%nat with (S (length es1)) in IH by lia.
    rewrite IH by (by rewrite <- (assoc_L (++))).
    destruct (list_find _ es2) as [[i x]|]; simpl; [|done].
    do 2 f_equal. lia.
Qed.

(** X18. In the earlier version of the program, whose [GetOUI] compares
    the stored prefix with the argument as it is, every listed entry is
    found again through its own prefix, in whatever case the prefix is
    stored: the lookup returns the first listed entry with that prefix.
    The later [GetOUI] is the earlier one on the upper-cased
    argument. *)
Theorem Earlier_GetOUI_finds_every_prefix
    (U : Unicode) (fs : string -> option string) (st : Memory)
    (i : nat) (p : ptr) (d : OUIData) :
  loaded U fs st ->
  ListOUIs st !! i = Some p ->
  heap st !! p = Some d ->
  (exists j q e,
     Earlier.GetOUI st (OUI d) = Returned (Some q)
     /\ ListOUIs st !! j = Some q /\ heap st !! q = Some e
     /\ OUI e = OUI d /\ (j <= i)%nat)
  /\ forall oui, GetOUI U st oui = Earlier.GetOUI st (strings.ToUpper U oui).
Proof.
  intros Hl Hi Hd. split; [|intros oui; apply Earlier_GetOUI_range].
  destruct (loaded_lookup U fs st i p Hl Hi) as [-> _].
  destruct (loaded_inv U fs st Hl) as (text & _ & Hheap & Hall).
  unfold Earlier.GetOUI, ListOUIs. rewrite Hall.
  replace (length (records text)) with (length (heap st))
    by (by rewrite Hheap, length_fmap).
  pose proof (Earlier_GetOUI_range_seq st (OUI d) (heap st) [] eq_refl) as Hr.
  change (length (@nil OUIData)) with 0%nat in Hr. rewrite Hr.
  destruct (list_find (fun e => OUI e = OUI d) (heap st)) as [[j e]|] eqn:Hfind.
  - apply list_find_Some in Hfind as (Hj & He & Hmin).
    exists j, j, e. simpl. repeat split; try done.
    + apply lookup_seq. split; [done|]. by apply lookup_lt_Some in Hj.
    + destruct (decide (j <= i)%nat) as [|Hn]; [done|].
      exfalso. apply (Hmin i d); [done|lia|done].
  - apply list_find_None in Hfind. rewrite Forall_forall in Hfind.
    exfalso. apply (Hfind d); [|done]. by apply list_elem_of_lookup_2 in Hd.
Qed.

Lemma Earlier_GetOUI_finds_every_prefix_witness :
  let d := {| OUI := "aabbcc"; VendorName := "Low"; VendorAlternateName := "Low" |} in
  loaded asciiOnly sampleFiles sampleMemory
  /\ ListOUIs sampleMemory !! 2%nat = Some 2%nat
  /\ heap sampleMemory !! 2%nat = Some d
  /\ Earlier.GetOUI sampleMemory "aabbcc" = Returned (Some 2%nat)
  /\ GetOUI asciiOnly sampleMemory "aabbcc" = Returned (Some 1%nat)
  /\ forall oui, GetOUI asciiOnly sampleMemory oui
                 = Earlier.GetOUI sampleMemory (strings.ToUpper asciiOnly oui).
Proof.
  intros d. split; [exact sample_is_loaded|]. do 4 (split; [reflexivity|]).
  exact (proj2 (Earlier_GetOUI_finds_every_prefix asciiOnly sampleFiles
                  sampleMemory 2%nat 2%nat d sample_is_loaded eq_refl eq_refl)).
Defined.

(** ** The address lookup *)

Lemma normalizeMac_filter mac :
  normalizeMac mac
  = if (String.length (Str.filter Pattern.kept mac) =? 12)%nat
    then (Str.filter Pattern.kept mac, None)
    else ("", Some (errorString "Incorrect format of MAC address")).
Proof.
  unfold normalizeMac. rewrite normalize_filter.
  by destruct (String.length (Str.filter Pattern.kept mac) =? 12)%nat.
Qed.

Lemma filter_idem p s : Str.filter p (Str.filter p s) = Str.filter p s.
Proof.
  induction s as [|c s IH]; [done|]. simpl.
  destruct (p c) eqn:Hp; [|done]. simpl. by rewrite Hp, IH.
Qed.

Lemma all_take p n s : Str.all p s = true -> Str.all p (Str.take n s) = true.
Proof.
  revert n. induction s as [|c s IH]; intros [|n] H; try done.
  simpl in *. apply andb_prop in H as [-> H]. by rewrite IH.
Qed.

Lemma kept_ascii c : Pattern.kept c = true -> Char.is_ascii c = true.
Proof.
  each_byte c; vm_compute; intros H; try discriminate H; reflexivity.
Qed.

(** X19. [normalizeMac] returns either the address with all bytes but
    letters, digits and spaces removed, when 12 bytes are left, or the
    empty string with an error; an address it accepts is unchanged by a
    second normalization. *)
Theorem normalizeMac_result (mac : string) :
  match normalizeMac mac with
  | (s, None) =>
      s = Str.filter Pattern.kept mac
      /\ String.length s = 12%nat
      /\ Str.all Pattern.kept s = true
      /\ normalizeMac s = (s, None)
  | (s, Some _) =>
      s = "" /\ String.length (Str.filter Pattern.kept mac) ≠ 12%nat
  end.
Proof.
  rewrite normalizeMac_filter.
  destruct (Nat.eqb_spec (String.length (Str.filter Pattern.kept mac)) 12)
    as [Hlen|Hlen]; [|done].
  repeat split; try done; [apply filter_all|].
  rewrite normalizeMac_filter, filter_idem.
  by apply Nat.eqb_eq in Hlen as ->.
Qed.

(** X20. [GetVendorFromMAC] reads the letters, digits and spaces of the
    address only: on every memory, two addresses with the same such
    bytes in the same order, whatever the other bytes between them, get
    the same result. *)
Theorem resolve_ignores_delimiters
    (U : Unicode) (st : Memory) (mac1 mac2 : string) :
  Str.filter Pattern.kept mac1 = Str.filter Pattern.kept mac2 ->
  GetVendorFromMAC U st mac1 = GetVendorFromMAC U st mac2.
Proof.
  intros H. unfold GetVendorFromMAC. by rewrite !normalizeMac_filter, H.
Qed.

Lemma resolve_ignores_delimiters_witness :
  Str.filter Pattern.kept "ac.de.48/00:00-01" = Str.filter Pattern.kept "acde48000001"
  /\ GetVendorFromMAC asciiOnly sampleMemory "ac.de.48/00:00-01"
     = GetVendorFromMAC asciiOnly sampleMemory "acde48000001".
Proof.
  split; [reflexivity|].
  exact (resolve_ignores_delimiters asciiOnly sampleMemory
           "ac.de.48/00:00-01" "acde48000001" eq_refl).
Defined.

(** X21. Of an address of 12 normalized bytes [GetVendorFromMAC] reads
    the first six only, and those without their case: on every memory,
    two such addresses whose first six normalized bytes agree up to the
    case of the letters get the same result, whatever their last six
    bytes. *)
Theorem resolve_reads_first_six_bytes
    (U : Unicode) (st : Memory) (mac1 mac2 : string) :
  let n1 := Str.filter Pattern.kept mac1 in
  let n2 := Str.filter Pattern.kept mac2 in
  String.length n1 = 12%nat ->
  String.length n2 = 12%nat ->
  Str.map Char.to_upper (Str.take 6 n1) = Str.map Char.to_upper (Str.take 6 n2) ->
  GetVendorFromMAC U st mac1 = GetVendorFromMAC U st mac2.
Proof.
  intros n1 n2 H1 H2 Hup.
  assert (Ha : forall mac, Str.all Char.is_ascii
                             (Str.take 6 (Str.filter Pattern.kept mac)) = true).
  { intros mac. apply all_take. eapply all_impl; [apply kept_ascii|]. apply filter_all. }
  rewrite (GetVendorFromMAC_normalized U st mac1), (GetVendorFromMAC_normalized U st mac2)
    by (by rewrite normalize_filter).
  rewrite !normalize_filter. fold n1 n2. unfold GetOUI.
  by rewrite (GetOUI_range_upper U st (allOUIs st) (Str.take 6 n1) (Str.take 6 n2))
    by (rewrite !ToUpper_ascii by apply Ha; exact Hup).
Qed.

Lemma resolve_reads_first_six_bytes_witness :
  let n1 := Str.filter Pattern.kept "AC-DE-48-00-00-01" in
  let n2 := Str.filter Pattern.kept "ac:de:48:ff:ff:fe" in
  String.length n1 = 12%nat
  /\ String.length n2 = 12%nat
  /\ Str.map Char.to_upper (Str.take 6 n1) = Str.map Char.to_upper (Str.take 6 n2)
  /\ GetVendorFromMAC asciiOnly sampleMemory "AC-DE-48-00-00-01"
     = GetVendorFromMAC asciiOnly sampleMemory "ac:de:48:ff:ff:fe".
Proof.
  intros n1 n2. do 3 (split; [reflexivity|]).
  exact (resolve_reads_first_six_bytes asciiOnly sampleMemory
           "AC-DE-48-00-00-01" "ac:de:48:ff:ff:fe" eq_refl eq_refl eq_refl).
Defined.

(** X22. [GetVendorFromMAC] never panics and never ends the process on a
    memory whose slice holds addresses of cells (as after the load): it
    returns a string for every address. *)
Theorem resolve_always_returns (U : Unicode) (st : Memory) (mac : string) :
  wellFormed st -> exists vendor, GetVendorFromMAC U st mac = Returned vendor.
Proof.
  intros Hwf.
  destruct (decide (String.length (regexp.ReplaceAllString Pattern.macExp mac "")
                    = 12%nat)) as [Hlen|Hlen].
  - rewrite (GetVendorFromMAC_normalized U st mac Hlen).
    destruct (GetOUI_range_wf U st
                (Str.take 6 (regexp.ReplaceAllString Pattern.macExp mac ""))
                (allOUIs st) Hwf) as [[r Hr] _].
    unfold GetOUI. rewrite Hr. simpl. destruct r as [p|]; [|by eexists].
    apply GetOUI_range_found in Hr as (i & d & _ & Hd & _).
    unfold deref. rewrite Hd. by eexists.
  - exists "". unfold GetVendorFromMAC, normalizeMac.
    apply Nat.eqb_neq in Hlen. by rewrite Hlen.
Qed.

Lemma resolve_always_returns_witness :
  wellFormed sampleMemory
  /\ exists vendor, GetVendorFromMAC asciiOnly sampleMemory "AC-DE-48-12-34-56"
                    = Returned vendor.
Proof.
  split; [exact sample_wellFormed|].
  exact (resolve_always_returns asciiOnly sampleMemory "AC-DE-48-12-34-56"
           sample_wellFormed).
Defined.

(** X23. A vendor name that [GetVendorFromMAC] returns comes from the
    registry: on every memory, a result that is not empty is the
    [VendorName] of the first listed entry whose prefix is the first six
    normalized bytes of the address in upper case, and the address had
    12 normalized bytes. *)
Theorem resolve_result_comes_from_registry
    (U : Unicode) (st : Memory) (mac vendor : string) :
  GetVendorFromMAC U st mac = Returned vendor ->
  vendor ≠ "" ->
  let normalized := Str.filter Pattern.kept mac in
  String.length normalized = 12%nat
  /\ exists i p d,
       ListOUIs st !! i = Some p /\ heap st !! p = Some d
       /\ OUI d = Str.map Char.to_upper (Str.take 6 normalized)
       /\ VendorName d = vendor
       /\ forall j q e, (j < i)%nat -> ListOUIs st !! j = Some q ->
                        heap st !! q = Some e ->
                        OUI e ≠ Str.map Char.to_upper (Str.take 6 normalized).
Proof.
  intros Hres Hne normalized.
  destruct (decide (String.length normalized = 12%nat)) as [Hlen|Hlen].
  - split; [done|].
    rewrite (GetVendorFromMAC_normalized U st mac) in Hres
      by (by rewrite normalize_filter).
    rewrite normalize_filter in Hres. fold normalized in Hres.
    unfold GetOUI in Hres.
    destruct (GetOUI_range U st (allOUIs st) (Str.take 6 normalized)) as [[p|]| |]
      eqn:Hget; simpl in Hres; try done; [|by injection Hres as <-].
    apply GetOUI_range_found in Hget as (i & d & Hi & Hd & He & Hfirst).
    unfold deref in Hres. rewrite Hd in Hres. simpl in Hres. injection Hres as <-.
    rewrite ToUpper_ascii in He, Hfirst
      by (apply all_take; eapply all_impl; [apply kept_ascii|]; apply filter_all).
    by exists i, p, d.
  - exfalso. unfold GetVendorFromMAC in Hres. rewrite normalizeMac_filter in Hres.
    fold normalized in Hres. apply Nat.eqb_neq in Hlen. rewrite Hlen in Hres.
    by injection Hres as <-.
Qed.

Lemma resolve_result_comes_from_registry_witness :
  GetVendorFromMAC asciiOnly sampleMemory "aa:bb:cc:00:00:01" = Returned "One"
  /\ "One" ≠ ""
  /\ exists i p d,
       ListOUIs sampleMemory !! i = Some p /\ heap sampleMemory !! p = Some d
       /\ OUI d = "AABBCC" /\ VendorName d = "One".
Proof.
  assert (Hne : "One" ≠ "") by discriminate.
  split; [reflexivity|]. split; [exact Hne|].
  destruct (resolve_result_comes_from_registry asciiOnly sampleMemory
              "aa:bb:cc:00:00:01" "One" eq_refl Hne)
    as (_ & i & p & d & Hi & Hd & He & Hv & _).
  exists i, p, d. repeat split; assumption.
Defined.

Lemma to_upper_hex c :
  Char.is_ascii c = true -> Char.is_hex (Char.to_upper c) = Char.is_hex c.
Proof.
  each_byte c; vm_compute; intros H; try discriminate H; reflexivity.
Qed.

Lemma map_upper_hex s :
  Str.all Char.is_ascii s = true ->
  Str.all Char.is_hex (Str.map Char.to_upper s) = Str.all Char.is_hex s.
Proof.
  induction s as [|c s IH]; [done|]. simpl.
  intros [Hc Hs]%andb_prop. by rewrite to_upper_hex, IH.
Qed.

(** X24. After the load an address finds nothing when one of its first
    six normalized bytes is no hexadecimal digit (a letter after [f], or
    a space): [GetVendorFromMAC] returns the empty string, because every
    stored prefix is made of hexadecimal digits. *)
Theorem resolve_non_hex_prefix_is_not_found
    (U : Unicode) (fs : string -> option string) (st : Memory) (mac : string) :
  loaded U fs st ->
  Str.all Char.is_hex (Str.take 6 (Str.filter Pattern.kept mac)) = false ->
  GetVendorFromMAC U st mac = Returned "".
Proof.
  intros Hl Hhex.
  destruct (decide (String.length (Str.filter Pattern.kept mac) = 12%nat))
    as [Hlen|Hlen].
  - rewrite (GetVendorFromMAC_normalized U st mac) by (by rewrite normalize_filter).
    rewrite normalize_filter, (GetOUI_loaded U fs st _ Hl).
    assert (Ha : Str.all Char.is_ascii
                   (Str.take 6 (Str.filter Pattern.kept mac)) = true)
      by (apply all_take; eapply all_impl; [apply kept_ascii|]; apply filter_all).
    rewrite ToUpper_ascii by done.
    destruct (list_find _ (heap st)) as [[q e]|] eqn:Hfind; [|done].
    apply list_find_Some in Hfind as (Hq & He & _). exfalso.
    destruct (loaded_prefix U fs st q e Hl Hq) as [_ Hh].
    rewrite He, map_upper_hex in Hh by done. congruence.
  - unfold GetVendorFromMAC. rewrite normalizeMac_filter.
    apply Nat.eqb_neq in Hlen. by rewrite Hlen.
Qed.

Lemma resolve_non_hex_prefix_is_not_found_witness :
  loaded asciiOnly sampleFiles sampleMemory
  /\ Str.all Char.is_hex (Str.take 6 (Str.filter Pattern.kept "AC-DG-48-12-34-56"))
     = false
  /\ GetVendorFromMAC asciiOnly sampleMemory "AC-DG-48-12-34-56" = Returned "".
Proof.
  split; [exact sample_is_loaded|]. split; [reflexivity|].
  exact (resolve_non_hex_prefix_is_not_found asciiOnly sampleFiles sampleMemory
           "AC-DG-48-12-34-56" sample_is_loaded eq_refl).
Defined.

(** ** The case of the stored prefix *)

(** X25. [GetOUI] never returns an entry whose stored prefix has a
    lower-case letter, whatever ASCII argument it is given and whatever
    the memory: the prefix of the entry it returns is an upper-cased
    string. *)
Theorem GetOUI_never_returns_lowercase_prefix
    (U : Unicode) (st : Memory) (oui : string) (p : ptr) (d : OUIData) :
  Str.all Char.is_ascii oui = true ->
  GetOUI U st oui = Returned (Some p) ->
  heap st !! p = Some d ->
  Str.any Char.is_lower (OUI d) = false.
Proof.
  intros Hascii Hget Hd.
  apply GetOUI_range_found in Hget as (i & d' & _ & Hd' & He & _).
  rewrite Hd in Hd'. injection Hd' as <-.
  rewrite He. by apply ToUpper_no_lower.
Qed.

Lemma GetOUI_never_returns_lowercase_prefix_witness :
  let d := {| OUI := "AABBCC"; VendorName := "One"; VendorAlternateName := "One" |} in
  Str.all Char.is_ascii "aabbcc" = true
  /\ GetOUI asciiOnly sampleMemory "aabbcc" = Returned (Some 1%nat)
  /\ heap sampleMemory !! 1%nat = Some d
  /\ heap sampleMemory !! 2%nat
     = Some {| OUI := "aabbcc"; VendorName := "Low"; VendorAlternateName := "Low" |}
  /\ Str.any Char.is_lower (OUI d) = false.
Proof.
  intros d. do 4 (split; [reflexivity|]).
  exact (GetOUI_never_returns_lowercase_prefix asciiOnly sampleMemory "aabbcc"
           1%nat d eq_refl eq_refl eq_refl).
Defined.

(** X26. On a memory whose slice holds addresses of cells, every
    spelling of a stored upper-case prefix finds an entry: when the
    upper-cased ASCII argument is the prefix of a listed entry, [GetOUI]
    returns a listed entry with that prefix. *)
Theorem GetOUI_finds_uppercase_prefix
    (U : Unicode) (st : Memory) (oui : string) (p : ptr) (d : OUIData) :
  wellFormed st ->
  p ∈ ListOUIs st ->
  heap st !! p = Some d ->
  Str.all Char.is_ascii oui = true ->
  Str.map Char.to_upper oui = OUI d ->
  exists q e, GetOUI U st oui = Returned (Some q)
              /\ q ∈ ListOUIs st /\ heap st !! q = Some e /\ OUI e = OUI d.
Proof.
  intros Hwf Hp Hd Hascii Hup.
  destruct (GetOUI_range_wf U st oui (allOUIs st) Hwf) as [[r Hr] Hnone].
  destruct r as [q|].
  - destruct (GetOUI_range_found U st oui (allOUIs st) q Hr)
      as (i & e & Hi & He & Heq & _).
    exists q, e. split; [exact Hr|]. split; [by eapply list_elem_of_lookup_2|].
    split; [done|]. by rewrite Heq, ToUpper_ascii.
  - exfalso. apply (proj1 Hnone Hr p d Hp Hd). by rewrite ToUpper_ascii.
Qed.

Lemma GetOUI_finds_uppercase_prefix_witness :
  let d := {| OUI := "AABBCC"; VendorName := "Two"; VendorAlternateName := "Two" |} in
  wellFormed sampleMemory
  /\ 3%nat ∈ ListOUIs sampleMemory
  /\ heap sampleMemory !! 3%nat = Some d
  /\ Str.all Char.is_ascii "aaBBcc" = true
  /\ Str.map Char.to_upper "aaBBcc" = OUI d
  /\ exists q e, GetOUI asciiOnly sampleMemory "aaBBcc" = Returned (Some q)
                 /\ q ∈ ListOUIs sampleMemory /\ heap sampleMemory !! q = Some e
                 /\ OUI e = OUI d.
Proof.
  intros d.
  assert (Hin : 3%nat ∈ ListOUIs sampleMemory)
    by (apply (list_elem_of_lookup_2 _ 3%nat); reflexivity).
  split; [exact sample_wellFormed|]. split; [exact Hin|].
  do 3 (split; [reflexivity|]).
  exact (GetOUI_finds_uppercase_prefix asciiOnly sampleMemory "aaBBcc" 3%nat d
           sample_wellFormed Hin eq_refl eq_refl eq_refl).
Defined.

(** * The loader on a source made of lines *)

(** ** Runs of bytes *)















(** ** The parts of a match of the record pattern *)

Section Parts.

Import regexp Pattern.








End Parts.

(** ** The record pattern at a two-line record *)





Section RecordMatch.

Import regexp Pattern.


End RecordMatch.

(** ** What the record pattern accepts *)

Section Accepts.

Import regexp Pattern.














End Accepts.

(** ** The search in a source made of lines *)

Section SearchInLines.

Import regexp Pattern.

Context (U : Unicode).

























End SearchInLines.

(** ** The records counted line by line *)

Section LineByLine.

Import regexp Pattern.






Lemma isHeader_first c x : isHeader (String c x) = true -> Char.is_hex c = true.
Proof.
  destruct x as [|? [|? [|? [|? [|? [|? [|? [|]]]]]]]]; try done.
  unfold isHeader. rewrite !andb_true_iff. tauto.
Qed.




Lemma linesOf_nonempty s : linesOf s <> [].
Proof.
  destruct s as [|c s]; [done|]. simpl.
  destruct (Ascii.eqb c newline); [done|]. by destruct (linesOf s).
Qed.




End LineByLine.

(** ** C8: order and number of the entries *)



